(** * Keyless account derivation of the Aptos TypeScript SDK: a shallow
      embedding and its properties.

    Embedded file: [src/internal/keyless.ts], with [getKeylessConfig], the
    two on-chain resource readers, [getPepper], [getProof] and
    [deriveKeylessAccount].

    The two methods of [src/api/transactionSubmission/simulate.ts] are
    replaced at class definition by what the decorator
    [ValidateFeePayerDataOnSimulation] of [./helpers] makes of them.  The
    decorator is not among the sources, so the methods are not embedded.

    Conventions of the embedding.
    - An [async] function is a computation in the monad [M]: it takes the
      world (wall clock, log of the HTTP requests issued so far, memoization
      cache) and returns a value or a thrown error together with the new
      world.  A call that is awaited at once is a bind of [M].
    - An [async] function that is called and not awaited has run up to its
      first call of the HTTP client, whose request has left ([Started]);
      the promise is what is left of the function ([Pending]).  When the
      event loop runs what is left is not modelled: properties of it are
      stated for every world it may run in.
    - A request counts as issued when the HTTP client is called, and the
      time the exchange takes is charged to the clock at that moment.
    - A JavaScript [number] is an integer-valued double, an infinity or
      [NaN]; subtraction and comparison are those of doubles.  Fractions
      are outside the model.
    - Collaborators whose code lives in other files of the SDK ([Hex],
      [Groth16Zkp], [EphemeralSignature], [KeylessAccount]) are fields of
      the classes [KeylessTypes] and [Collaborators]: every property holds
      for all of their instances.  The remote services of class [Services] answer
      through oracles that see the whole request history and the clock.
    - Module [Devnet] is one concrete instance, on which the properties are
      run. *)

From Stdlib Require Import ZArith String Ascii DecimalString List Bool Lia.
From Stdlib.Strings Require Import Byte.
From stdpp Require Import base option gmap strings list.

Local Open Scope string_scope.
Local Open Scope Z_scope.
Local Open Scope list_scope.

(** ** JavaScript numbers *)

(** A [number] is a double.  The model has the integer-valued doubles, the
    two infinities and [NaN]; fractions are outside it.  [Num z] is the
    double of value [z]; where [z] is no double, it stands for the double
    nearest to it (see [asDouble]). *)
Inductive JSNumber :=
| NaN
| Inf (negative : bool)
| Num (z : Z).

(** The double nearest to the integer [z], ties to the even mantissa: every
    integer up to 2^53 in magnitude is a double, beyond that 53 bits are
    kept. *)
Definition nearestDouble (z : Z) : Z :=
  let m := Z.abs z in
  if m <=? 2 ^ 53 then z
  else
    let e := Z.log2 m - 52 in
    let q := m / 2 ^ e in
    let r := m mod 2 ^ e in
    let half := 2 ^ (e - 1) in
    let q' := if r <? half then q
              else if half <? r then q + 1
              else if Z.even q then q else q + 1 in
    Z.sgn z * (q' * 2 ^ e).

(** The value of an arithmetic result whose exact value is the integer
    [z]: rounded, and infinite from 2^1024 on. *)
Definition toDouble (z : Z) : JSNumber :=
  let d := nearestDouble z in
  if 2 ^ 1024 <=? Z.abs d then Inf (d <? 0) else Num d.

(** The double that a [JSNumber] stands for. *)
Definition asDouble (a : JSNumber) : JSNumber :=
  match a with
  | Num z => toDouble z
  | _ => a
  end.

(** [a - b] *)
Definition jsSub (a b : JSNumber) : JSNumber :=
  match asDouble a, asDouble b with
  | Num x, Num y => toDouble (x - y)
  | Inf s, Num _ => Inf s
  | Num _, Inf s => Inf (negb s)
  | Inf s1, Inf s2 => if Bool.eqb s1 s2 then NaN else Inf s1
  | _, _ => NaN
  end.

(** [a < b]: any comparison with [NaN] is false. *)
Definition jsLt (a b : JSNumber) : bool :=
  match asDouble a, asDouble b with
  | Num x, Num y => x <? y
  | Inf s, Num _ => s
  | Num _, Inf s => negb s
  | Inf s1, Inf s2 => s1 && negb s2
  | _, _ => false
  end.

(** ** Plain data of the SDK *)

Definition Uint8Array := list Byte.byte.

(** [type HexInput = string | Uint8Array] *)
Inductive HexInput :=
| HexString (s : string)
| HexBytes (b : Uint8Array).

Record AptosConfig := { network : string }.

(** [LedgerVersionArg]: [{ ledgerVersion?: AnyNumber }] *)
Record LedgerVersionArg := { ledgerVersion : option Z }.

Record EphemeralKeyPair := {
  (* getPublicKey().bcsToHex().toStringWithoutPrefix() *)
  publicKeyBcsHex : string;
  expiryDateSecs : JSNumber;
  blinder : HexInput
}.

Inductive ZkpVariant := Groth16.

(** ** Requests sent to the remote services *)

Record FullNodeGet := {
  get_aptosConfig : AptosConfig;
  get_originMethod : string;
  get_path : string;
  get_ledger_version : option Z
}.

Record PepperFetchRequest := {
  pf_jwt_b64 : string;
  pf_epk : string;
  pf_exp_date_secs : JSNumber;
  pf_epk_blinder : string;
  pf_uid_key : string;
  pf_derivation_path : option string
}.

Record ProverRequest := {
  pr_jwt_b64 : string;
  pr_epk : string;
  pr_epk_blinder : string;
  pr_exp_date_secs : JSNumber;
  pr_exp_horizon_secs : JSNumber;
  pr_pepper : string;
  pr_uid_key : string
}.

Record ServicePost (Body : Type) := {
  post_aptosConfig : AptosConfig;
  post_path : string;
  post_body : Body;
  post_originMethod : string;
  post_WITH_CREDENTIALS : bool
}.
Arguments post_aptosConfig {Body}.
Arguments post_path {Body}.
Arguments post_body {Body}.
Arguments post_originMethod {Body}.
Arguments post_WITH_CREDENTIALS {Body}.

Inductive Request :=
| FullNodeRequest (q : FullNodeGet)
| PepperServiceRequest (q : ServicePost PepperFetchRequest)
| ProvingServiceRequest (q : ServicePost ProverRequest).

(** One entry of the request log: the request and, when the client threw,
    the message of the error. *)
Record Event := {
  ev_request : Request;
  ev_failure : option string
}.

Definition isFullNodeRequest (e : Event) : bool :=
  match ev_request e with FullNodeRequest _ => true | _ => false end.
Definition isPepperServiceRequest (e : Event) : bool :=
  match ev_request e with PepperServiceRequest _ => true | _ => false end.
Definition isProvingServiceRequest (e : Event) : bool :=
  match ev_request e with ProvingServiceRequest _ => true | _ => false end.
Definition isResourceRead (originMethod : string) (e : Event) : bool :=
  match ev_request e with
  | FullNodeRequest q => String.eqb (get_originMethod q) originMethod
  | _ => false
  end.

(** Number of logged requests that satisfy [p]. *)
Definition issued (p : Event -> bool) (evs : list Event) : nat :=
  length (List.filter p evs).

(** ** Errors *)

(** Errors thrown by the embedded file are kept apart from those thrown by
    its collaborators. *)
Inductive Err :=
| ClientError (msg : string)        (* the HTTP client threw *)
| CollaboratorError (msg : string)  (* Hex, Groth16Zkp, EphemeralSignature, KeylessAccount *)
| EphemeralKeyPairTooLongLived (maxExpHorizonSecs : JSNumber)
| PepperWrongLength (required : nat).

Definition Result (A : Type) : Type := Err + A.

(** What a remote service does with a request: the time it takes (in
    milliseconds of the wall clock) and the response or an error. *)
Record Reply (A : Type) := {
  elapsed : Z;
  outcome : string + A
}.
Arguments elapsed {A}.
Arguments outcome {A}.

(** A service sees the requests issued so far and the clock. *)
Definition Oracle (Q A : Type) : Type := list Event -> Z -> Q -> Reply A.

(** ** Types owned by other files of the SDK *)

Class KeylessTypes := {
  (* types/keyless.ts: the Move resource 0x1::keyless_account::Groth16VerificationKey *)
  Groth16VerificationKeyResponse : Type;
  (* core: the proof object built by [new Groth16Zkp] *)
  Groth16Zkp : Type;
  (* core: the result of [EphemeralSignature.fromHex] *)
  EphemeralSignature : Type;
  (* account: the result of [KeylessAccount.create] *)
  KeylessAccount : Type;
  (* account: [ProofFetchCallback] *)
  ProofFetchCallback : Type
}.

Section Model.
Context {T : KeylessTypes}.

(** The fields of [KeylessConfigurationResponse] that the file reads. *)
Record KeylessConfigurationResponse := {
  max_exp_horizon_secs : string
}.

(** Modelled from the spec: [KeylessConfiguration] and its [create] are in
    [core], outside the files at hand.  The spec describes the object as
    "verification key + maximum expiry horizon (seconds)", a passive data
    carrier with no invariant beyond its field shape. *)
Record KeylessConfiguration := {
  verificationKey : Groth16VerificationKeyResponse;
  maxExpHorizonSecs : JSNumber
}.

Definition KeylessConfiguration_create
  (vk : Groth16VerificationKeyResponse) (maxExpHorizonSecs : JSNumber) : KeylessConfiguration :=
  {| verificationKey := vk; maxExpHorizonSecs := maxExpHorizonSecs |}.

(** [PepperFetchResponse] and [ProverResponse]: the fields the file reads. *)
Record PepperFetchResponse := {
  pepper_of_response : HexInput
}.

Record ProofPoints := {
  point_a : string;
  point_b : string;
  point_c : string
}.

Record ProverResponse := {
  proof_of_response : ProofPoints;
  training_wheels_signature : string
}.

(** [new ZkProof(proof, variant)] and [new ZeroKnowledgeSig({...})] store
    their arguments. *)
Record ZkProof := {
  zk_proof : Groth16Zkp;
  zk_variant : ZkpVariant
}.

Record ZeroKnowledgeSig := {
  proof : ZkProof;
  trainingWheelsSignature : EphemeralSignature;
  expHorizonSecs : JSNumber
}.

(** ** The world and the monad of [async] functions *)

(** An entry of the memoization cache: [{ value, timestamp }]. *)
Record CacheEntry := {
  value : KeylessConfiguration;
  timestamp : Z
}.

Record World := {
  now : Z;                        (* Date.now(), milliseconds *)
  trace : list Event;             (* requests issued so far, oldest first *)
  cache : gmap string CacheEntry  (* the module-level Map of utils/memoize *)
}.

Definition M (A : Type) : Type := World -> Result A * World.

Definition ret {A} (a : A) : M A := fun w => (inr a, w).

Definition throw {A} (e : Err) : M A := fun w => (inl e, w).

Definition bind {A B} (m : M A) (k : A -> M B) : M B :=
  fun w =>
    match m w with
    | (inl e, w') => (inl e, w')
    | (inr a, w') => k a w'
    end.

(** A synchronous call into a collaborator that may throw. *)
Definition call {A} (r : string + A) : M A :=
  match r with
  | inl msg => throw (CollaboratorError msg)
  | inr a => ret a
  end.

End Model.

Notation "x <- m ;; k" := (bind m (fun x => k))
  (at level 100, m at next level, right associativity).

Section Client.
Context {T : KeylessTypes}.

(** One HTTP exchange: the request is logged with its fate, the clock moves
    by the time the exchange took, and the client returns the response or
    throws. *)
Definition exchange {Q A} (service : Oracle Q A) (log : Q -> Request) (q : Q) : M A :=
  fun w =>
    let r := service (trace w) (now w) q in
    let failure := match outcome r with inl msg => Some msg | inr _ => None end in
    let w' := {| now := now w + elapsed r;
                 trace := trace w ++ [{| ev_request := log q; ev_failure := failure |}];
                 cache := cache w |} in
    match outcome r with
    | inl msg => (inl (ClientError msg), w')
    | inr a => (inr a, w')
    end.

(** *** Calls that are not awaited

    Calling an [async] function runs it up to its first wait for a service:
    the request is on its way, and what is left of the function runs when
    the promise is awaited.  [Started A] is such a call: from the world it
    is made in, what is left to run and the world the call leaves.  The
    time an exchange takes is charged when the request is sent, as in
    [exchange]. *)
Definition Started (A : Type) : Type := World -> M A * World.

(** [await f(...)]: the call, and at once what is left of it. *)
Definition await {A} (s : Started A) : M A :=
  fun w => let (rest, w') := s w in rest w'.

(** [const p = f(...)]: the call; [p] is what is left of it. *)
Definition hold {A} (s : Started A) : M (M A) :=
  fun w => let (rest, w') := s w in (inr rest, w').

(** An [async] function whose first wait is on the started call [s] and
    which goes on with [k]. *)
Definition andThen {A B} (s : Started A) (k : A -> M B) : Started B :=
  fun w => let (rest, w') := s w in (bind rest k, w').

(** A call of the HTTP client: the request leaves at once, the answer is
    what is left. *)
Definition request {Q A} (service : Oracle Q A) (log : Q -> Request) (q : Q) : Started A :=
  fun w =>
    let r := service (trace w) (now w) q in
    let failure := match outcome r with inl msg => Some msg | inr _ => None end in
    let w' := {| now := now w + elapsed r;
                 trace := trace w ++ [{| ev_request := log q; ev_failure := failure |}];
                 cache := cache w |} in
    (match outcome r with
     | inl msg => throw (ClientError msg)
     | inr a => ret a
     end, w').

(** Time passing between two calls of the SDK. *)
Definition sleep (ms : Z) : M unit :=
  fun w => (inr tt, {| now := now w + ms; trace := trace w; cache := cache w |}).

(** The remote services. *)
Class Services := {
  (* GET accounts/0x1/resource/0x1::keyless_account::Configuration *)
  fullNodeConfiguration : Oracle FullNodeGet KeylessConfigurationResponse;
  (* GET accounts/0x1/resource/0x1::keyless_account::Groth16VerificationKey *)
  fullNodeVerificationKey : Oracle FullNodeGet Groth16VerificationKeyResponse;
  pepperService : Oracle (ServicePost PepperFetchRequest) PepperFetchResponse;
  provingService : Oracle (ServicePost ProverRequest) ProverResponse
}.

End Client.

(** ** Argument objects of [keyless.ts] *)

Section Arguments_.
Context {T : KeylessTypes}.

Record GetKeylessConfigArgs := {
  kc_aptosConfig : AptosConfig;
  kc_options : option LedgerVersionArg
}.

Record GetPepperArgs := {
  gp_aptosConfig : AptosConfig;
  gp_jwt : string;
  gp_ephemeralKeyPair : EphemeralKeyPair;
  gp_uidKey : option string;
  gp_derivationPath : option string
}.

Record GetProofArgs := {
  gf_aptosConfig : AptosConfig;
  gf_jwt : string;
  gf_ephemeralKeyPair : EphemeralKeyPair;
  gf_pepper : HexInput;
  gf_uidKey : option string
}.

(** The argument object of [deriveKeylessAccount].  Its declared type has no
    [derivationPath], but the object is handed on whole (lines 183, 192 and
    200), and [getPepper] reads that property: [d_derivationPath] is the
    property the object has at run time, if any. *)
Record DeriveKeylessAccountArgs := {
  d_aptosConfig : AptosConfig;
  d_jwt : string;
  d_ephemeralKeyPair : EphemeralKeyPair;
  d_uidKey : option string;
  d_pepper : option HexInput;
  d_proofFetchCallback : option ProofFetchCallback;
  d_derivationPath : option string
}.

(** The [proof] handed to [KeylessAccount.create]: a [ZeroKnowledgeSig], or
    the promise of one that nobody has awaited, that is, what is left to
    run of the call that made it. *)
Inductive ProofOrPromise :=
| Resolved (sig : ZeroKnowledgeSig)
| Pending (promise : M ZeroKnowledgeSig).

(** The object literal [{ ...args, proof, pepper, proofFetchCallback }]. *)
Record KeylessAccountCreateArgs := {
  c_aptosConfig : AptosConfig;
  c_jwt : string;
  c_ephemeralKeyPair : EphemeralKeyPair;
  c_uidKey : option string;
  c_pepper : Uint8Array;
  c_proof : ProofOrPromise;
  c_proofFetchCallback : option ProofFetchCallback;
  c_derivationPath : option string
}.

(** Functions and constants of other files of the SDK, and the built-in
    [Number]. *)
Class Collaborators := {
  Hex_fromHexString : string -> string + Uint8Array;
  Hex_toStringWithoutPrefix : Uint8Array -> string;
  AccountAddress_from_toString : string -> string;
  JS_Number : string -> JSNumber;
  Groth16Zkp_new : string -> string -> string -> string + Groth16Zkp;
  EphemeralSignature_fromHex : string -> string + EphemeralSignature;
  KeylessAccount_PEPPER_LENGTH : nat;
  KeylessAccount_create : KeylessAccountCreateArgs -> string + KeylessAccount
}.

End Arguments_.

Section Keyless.
Context {T : KeylessTypes} {S : Services} {C : Collaborators}.

(** [Hex.fromHexInput(x).toUint8Array()]: a [Uint8Array] is taken as it is,
    a string is decoded. *)
Definition Hex_fromHexInput (x : HexInput) : string + Uint8Array :=
  match x with
  | HexBytes b => inr b
  | HexString s => Hex_fromHexString s
  end.

(** [Hex.fromHexInput(x).toStringWithoutPrefix()] *)
Definition hexWithoutPrefix (x : HexInput) : M string :=
  b <- call (Hex_fromHexInput x) ;;
  ret (Hex_toStringWithoutPrefix b).

(** [Date.now()] *)
Definition Date_now : M Z := fun w => (inr (now w), w).

(** Modelled from the spec: [currentTimeInSeconds] is in [utils/helpers],
    outside the files at hand.  The spec measures the lifetime of the key
    pair and the expiry horizon in seconds: the wall clock in whole
    seconds. *)
Definition currentTimeInSeconds : M JSNumber :=
  t <- Date_now ;;
  ret (Num (t / 1000)).

(** [cache.get(key)] and [cache.set(key, entry)] on the module-level map. *)
Definition cache_get (key : string) : M (option CacheEntry) :=
  fun w => (inr (cache w !! key), w).

Definition cache_set (key : string) (e : CacheEntry) : M unit :=
  fun w => (inr tt, {| now := now w; trace := trace w; cache := <[key := e]> (cache w) |}).

(** Modelled from the spec: [memoizeAsync] is in [utils/memoize], outside the
    files at hand.  The spec says the configuration is fetched "with a
    5-minute cache" and "cached briefly": a result stored under [key] is
    returned without running [func] while its age is at most [ttlMs];
    otherwise [func] runs and, when it returns, its result is stored with
    the time of storing.  A call that throws stores nothing. *)
Definition memoizeAsync (func : M KeylessConfiguration) (key : string) (ttlMs : option Z)
  : M KeylessConfiguration :=
  let refill :=
    result <- func ;;
    t <- Date_now ;;
    _ <- cache_set key {| value := result; timestamp := t |} ;;
    ret result in
  hit <- cache_get key ;;
  match hit with
  | Some entry =>
      t <- Date_now ;;
      if match ttlMs with
         | None => true
         | Some ttl => t - timestamp entry <=? ttl
         end
      then ret (value entry)
      else refill
  | None => refill
  end.

Definition ledger_version_of (options : option LedgerVersionArg) : option Z :=
  match options with
  | Some o => ledgerVersion o
  | None => None
  end.

(** [getKeylessConfigurationResource], lines 62-76 *)
Definition getKeylessConfigurationResource (args : GetKeylessConfigArgs)
  : M KeylessConfigurationResponse :=
  let resourceType := "0x1::keyless_account::Configuration" in
  exchange fullNodeConfiguration FullNodeRequest
    {| get_aptosConfig := kc_aptosConfig args;
       get_originMethod := "getKeylessConfigurationResource";
       get_path := String.append "accounts/"
                     (String.append (AccountAddress_from_toString "0x1")
                        (String.append "/resource/" resourceType));
       get_ledger_version := ledger_version_of (kc_options args) |}.

(** [getGroth16VerificationKeyResource], lines 84-98 *)
Definition getGroth16VerificationKeyResource (args : GetKeylessConfigArgs)
  : M Groth16VerificationKeyResponse :=
  let resourceType := "0x1::keyless_account::Groth16VerificationKey" in
  exchange fullNodeVerificationKey FullNodeRequest
    {| get_aptosConfig := kc_aptosConfig args;
       get_originMethod := "getGroth16VerificationKeyResource";
       get_path := String.append "accounts/"
                     (String.append (AccountAddress_from_toString "0x1")
                        (String.append "/resource/" resourceType));
       get_ledger_version := ledger_version_of (kc_options args) |}.

(** The arrow function memoized by [getKeylessConfig], lines 46-50 *)
Definition fetchKeylessConfig (args : GetKeylessConfigArgs) : M KeylessConfiguration :=
  config <- getKeylessConfigurationResource args ;;
  vk <- getGroth16VerificationKeyResource args ;;
  ret (KeylessConfiguration_create vk (JS_Number (max_exp_horizon_secs config))).

Definition keylessConfigKey (c : AptosConfig) : string :=
  String.append "keyless-configuration-" (network c).

(** [getKeylessConfig], lines 40-54 *)
Definition getKeylessConfig (args : GetKeylessConfigArgs) : M KeylessConfiguration :=
  memoizeAsync (fetchKeylessConfig args)
    (keylessConfigKey (kc_aptosConfig args))
    (Some (1000 * 60 * 5)).

Definition uidKey_or_sub (uidKey : option string) : string :=
  match uidKey with
  | Some k => k
  | None => "sub"
  end.

(** The request of [getPepper], lines 117-123 *)
Definition pepperPost (c : AptosConfig) (body : PepperFetchRequest)
  : ServicePost PepperFetchRequest :=
  {| post_aptosConfig := c;
     post_path := "fetch";
     post_body := body;
     post_originMethod := "getPepper";
     post_WITH_CREDENTIALS := false |}.

(** [getPepper], lines 100-125 *)
Definition getPepper (args : GetPepperArgs) : M Uint8Array :=
  let ephemeralKeyPair := gp_ephemeralKeyPair args in
  epk_blinder <- hexWithoutPrefix (blinder ephemeralKeyPair) ;;
  let body :=
    {| pf_jwt_b64 := gp_jwt args;
       pf_epk := publicKeyBcsHex ephemeralKeyPair;
       pf_exp_date_secs := expiryDateSecs ephemeralKeyPair;
       pf_epk_blinder := epk_blinder;
       pf_uid_key := uidKey_or_sub (gp_uidKey args);
       pf_derivation_path := gp_derivationPath args |} in
  data <- exchange pepperService PepperServiceRequest (pepperPost (gp_aptosConfig args) body) ;;
  call (Hex_fromHexInput (pepper_of_response data)).

(** The object [json] of [getProof], lines 139-147 *)
Definition proverRequestBody (args : GetProofArgs) (maxExpHorizonSecs : JSNumber)
  : M ProverRequest :=
  let ephemeralKeyPair := gf_ephemeralKeyPair args in
  epk_blinder <- hexWithoutPrefix (blinder ephemeralKeyPair) ;;
  pepper <- hexWithoutPrefix (gf_pepper args) ;;
  ret {| pr_jwt_b64 := gf_jwt args;
         pr_epk := publicKeyBcsHex ephemeralKeyPair;
         pr_epk_blinder := epk_blinder;
         pr_exp_date_secs := expiryDateSecs ephemeralKeyPair;
         pr_exp_horizon_secs := maxExpHorizonSecs;
         pr_pepper := pepper;
         pr_uid_key := uidKey_or_sub (gf_uidKey args) |}.

(** The request of [getProof], lines 149-155 *)
Definition proverPost (c : AptosConfig) (json : ProverRequest) : ServicePost ProverRequest :=
  {| post_aptosConfig := c;
     post_path := "prove";
     post_body := json;
     post_originMethod := "getProof";
     post_WITH_CREDENTIALS := false |}.

(** [getProof] from line 139 on: build [json], post it, assemble the
    [ZeroKnowledgeSig]. *)
Definition requestProof (args : GetProofArgs) (maxExpHorizonSecs : JSNumber)
  : M ZeroKnowledgeSig :=
  json <- proverRequestBody args maxExpHorizonSecs ;;
  data <- exchange provingService ProvingServiceRequest (proverPost (gf_aptosConfig args) json) ;;
  let proofPoints := proof_of_response data in
  groth16Zkp <- call (Groth16Zkp_new (point_a proofPoints) (point_b proofPoints)
                        (point_c proofPoints)) ;;
  tws <- call (EphemeralSignature_fromHex (training_wheels_signature data)) ;;
  ret {| proof := {| zk_proof := groth16Zkp; zk_variant := Groth16 |};
         trainingWheelsSignature := tws;
         expHorizonSecs := maxExpHorizonSecs |}.

(** [getProof], lines 127-170 *)
Definition getProof (args : GetProofArgs) : M ZeroKnowledgeSig :=
  config <- getKeylessConfig {| kc_aptosConfig := gf_aptosConfig args; kc_options := None |} ;;
  let maxExpHorizonSecs := maxExpHorizonSecs config in
  nowSecs <- currentTimeInSeconds ;;
  if jsLt maxExpHorizonSecs (jsSub (expiryDateSecs (gf_ephemeralKeyPair args)) nowSecs)
  then throw (EphemeralKeyPairTooLongLived maxExpHorizonSecs)
  else requestProof args maxExpHorizonSecs.

(** *** The same functions, called and not awaited

    Each follows its function above up to the first call of the HTTP
    client. *)

(** Modelled from the spec: [memoizeAsync] of [utils/memoize], as above,
    here called and not awaited.  The spec's "5-minute cache": an entry
    that is young enough is returned without any wait; otherwise [func] is
    called and the storing of its result is left to run. *)
Definition memoizeAsync_started (func : Started KeylessConfiguration) (key : string)
  (ttlMs : option Z) : Started KeylessConfiguration :=
  fun w =>
    let refill :=
      andThen func (fun result =>
        t <- Date_now ;;
        _ <- cache_set key {| value := result; timestamp := t |} ;;
        ret result) in
    match cache w !! key with
    | Some entry =>
        if match ttlMs with
           | None => true
           | Some ttl => now w - timestamp entry <=? ttl
           end
        then (ret (value entry), w)
        else refill w
    | None => refill w
    end.

(** [getKeylessConfigurationResource(args)] not awaited: the GET has left. *)
Definition getKeylessConfigurationResource_started (args : GetKeylessConfigArgs)
  : Started KeylessConfigurationResponse :=
  let resourceType := "0x1::keyless_account::Configuration" in
  request fullNodeConfiguration FullNodeRequest
    {| get_aptosConfig := kc_aptosConfig args;
       get_originMethod := "getKeylessConfigurationResource";
       get_path := String.append "accounts/"
                     (String.append (AccountAddress_from_toString "0x1")
                        (String.append "/resource/" resourceType));
       get_ledger_version := ledger_version_of (kc_options args) |}.

(** The arrow function of lines 46-50, not awaited. *)
Definition fetchKeylessConfig_started (args : GetKeylessConfigArgs)
  : Started KeylessConfiguration :=
  andThen (getKeylessConfigurationResource_started args) (fun config =>
    vk <- getGroth16VerificationKeyResource args ;;
    ret (KeylessConfiguration_create vk (JS_Number (max_exp_horizon_secs config)))).

(** [getKeylessConfig(args)] not awaited. *)
Definition getKeylessConfig_started (args : GetKeylessConfigArgs)
  : Started KeylessConfiguration :=
  memoizeAsync_started (fetchKeylessConfig_started args)
    (keylessConfigKey (kc_aptosConfig args))
    (Some (1000 * 60 * 5)).

(** [getProof(args)] not awaited: its first wait is on [getKeylessConfig]
    (line 135); the lifetime check and the request of the proof are left
    to run. *)
Definition getProof_started (args : GetProofArgs) : Started ZeroKnowledgeSig :=
  andThen
    (getKeylessConfig_started {| kc_aptosConfig := gf_aptosConfig args; kc_options := None |})
    (fun config =>
       let maxExpHorizonSecs := maxExpHorizonSecs config in
       nowSecs <- currentTimeInSeconds ;;
       if jsLt maxExpHorizonSecs (jsSub (expiryDateSecs (gf_ephemeralKeyPair args)) nowSecs)
       then throw (EphemeralKeyPairTooLongLived maxExpHorizonSecs)
       else requestProof args maxExpHorizonSecs).

(** [getPepper(args)] as [deriveKeylessAccount] calls it, with the whole
    argument object: [getPepper] finds in it whatever [derivationPath] it
    has at run time. *)
Definition getPepperArgs_of (args : DeriveKeylessAccountArgs) : GetPepperArgs :=
  {| gp_aptosConfig := d_aptosConfig args;
     gp_jwt := d_jwt args;
     gp_ephemeralKeyPair := d_ephemeralKeyPair args;
     gp_uidKey := d_uidKey args;
     gp_derivationPath := d_derivationPath args |}.

(** [{ ...args, pepper }] *)
Definition getProofArgs_of (args : DeriveKeylessAccountArgs) (pepper : Uint8Array)
  : GetProofArgs :=
  {| gf_aptosConfig := d_aptosConfig args;
     gf_jwt := d_jwt args;
     gf_ephemeralKeyPair := d_ephemeralKeyPair args;
     gf_pepper := HexBytes pepper;
     gf_uidKey := d_uidKey args |}.

(** [{ ...args, proof, pepper, proofFetchCallback }] *)
Definition createArgs_of (args : DeriveKeylessAccountArgs) (proof : ProofOrPromise)
  (pepper : Uint8Array) : KeylessAccountCreateArgs :=
  {| c_aptosConfig := d_aptosConfig args;
     c_jwt := d_jwt args;
     c_ephemeralKeyPair := d_ephemeralKeyPair args;
     c_uidKey := d_uidKey args;
     c_pepper := pepper;
     c_proof := proof;
     c_proofFetchCallback := d_proofFetchCallback args;
     c_derivationPath := d_derivationPath args |}.

(** [deriveKeylessAccount], lines 172-203.  Line 192 calls [getProof]
    without awaiting it; line 198 awaits the promise only when there is no
    callback. *)
Definition deriveKeylessAccount (args : DeriveKeylessAccountArgs) : M KeylessAccount :=
  pepper <- match d_pepper args with
            | None => getPepper (getPepperArgs_of args)
            | Some supplied => call (Hex_fromHexInput supplied)
            end ;;
  if negb (Nat.eqb (length pepper) KeylessAccount_PEPPER_LENGTH)
  then throw (PepperWrongLength KeylessAccount_PEPPER_LENGTH)
  else
    proofPromise <- hold (getProof_started (getProofArgs_of args pepper)) ;;
    proof <- match d_proofFetchCallback args with
             | Some _ => ret (Pending proofPromise)
             | None => sig <- proofPromise ;; ret (Resolved sig)
             end ;;
    call (KeylessAccount_create (createArgs_of args proof pepper)).

End Keyless.

Section Stages.
Context {T : KeylessTypes} {S : Services} {C : Collaborators}.

(** Lines 181-186 of [deriveKeylessAccount]: the pepper in use. *)
Definition pepperInUse (args : DeriveKeylessAccountArgs) : M Uint8Array :=
  match d_pepper args with
  | None => getPepper (getPepperArgs_of args)
  | Some supplied => call (Hex_fromHexInput supplied)
  end.

(** Lines 192-198: the proof handed to [KeylessAccount.create]. *)
Definition proofInUse (args : DeriveKeylessAccountArgs) (pepper : Uint8Array)
  : M ProofOrPromise :=
  proofPromise <- hold (getProof_started (getProofArgs_of args pepper)) ;;
  match d_proofFetchCallback args with
  | Some _ => ret (Pending proofPromise)
  | None => sig <- proofPromise ;; ret (Resolved sig)
  end.

(** Lines 192-202: what follows a successful length check. *)
Definition assembleAccount (args : DeriveKeylessAccountArgs) (pepper : Uint8Array)
  : M KeylessAccount :=
  proof <- proofInUse args pepper ;;
  call (KeylessAccount_create (createArgs_of args proof pepper)).

(** Lines 188-202: the length check and what follows it. *)
Definition checkAndAssemble (args : DeriveKeylessAccountArgs) (pepper : Uint8Array)
  : M KeylessAccount :=
  if negb (Nat.eqb (length pepper) KeylessAccount_PEPPER_LENGTH)
  then throw (PepperWrongLength KeylessAccount_PEPPER_LENGTH)
  else assembleAccount args pepper.

(** The requests logged between two worlds. *)
Definition issuedBetween (w w' : World) (evs : list Event) : Prop :=
  trace w' = trace w ++ evs.

(** Every failed request among [evs] is the error the caller gets. *)
Definition failuresPropagate {A} (evs : list Event) (r : Result A) : Prop :=
  forall ev msg, In ev evs -> ev_failure ev = Some msg -> r = inl (ClientError msg).

Definition configurationRead : Event -> bool :=
  isResourceRead "getKeylessConfigurationResource".
Definition verificationKeyRead : Event -> bool :=
  isResourceRead "getGroth16VerificationKeyResource".

(** What a run logs when it only reads the two on-chain resources, each at
    most once. *)
Definition readsResourcesOnce (evs : list Event) : Prop :=
  Forall (fun e => isFullNodeRequest e = true) evs /\
  (issued configurationRead evs <= 1)%nat /\
  (issued verificationKeyRead evs <= 1)%nat /\
  issued isPepperServiceRequest evs = 0%nat /\
  issued isProvingServiceRequest evs = 0%nat /\
  NoDup (map ev_request evs).

(** The world after [memoizeAsync] has stored [result]. *)
Definition stored (key : string) (result : KeylessConfiguration) (w : World) : World :=
  {| now := now w; trace := trace w;
     cache := <[key := {| value := result; timestamp := now w |}]> (cache w) |}.

(** A run of [getKeylessConfig] that finds no entry young enough. *)
Definition refillKeylessConfig (args : GetKeylessConfigArgs) : M KeylessConfiguration :=
  fun w =>
    match fetchKeylessConfig args w with
    | (inl e, w') => (inl e, w')
    | (inr result, w') => (inr result, stored (keylessConfigKey (kc_aptosConfig args)) result w')
    end.

(** The argument [{ aptosConfig }] of the [getKeylessConfig] call in [getProof]. *)
Definition configArgs_of (args : GetProofArgs) : GetKeylessConfigArgs :=
  {| kc_aptosConfig := gf_aptosConfig args; kc_options := None |}.

(** The lifetime [getProof] compares with the horizon, at the world [w]. *)
Definition lifetime (args : GetProofArgs) (w : World) : JSNumber :=
  jsSub (expiryDateSecs (gf_ephemeralKeyPair args)) (Num (now w / 1000)).

(** The proving-service request that carries the pepper [b]. *)
Definition carriesPepper (b : Uint8Array) (e : Event) : Prop :=
  exists q, ev_request e = ProvingServiceRequest q /\
            pr_pepper (post_body q) = Hex_toStringWithoutPrefix b.

(** What a run of [getProof] may log: each on-chain resource read at most
    once, at most one request to the proving service, nothing to the pepper
    service, and no request twice. *)
Definition provesOnce (evs : list Event) : Prop :=
  (issued configurationRead evs <= 1)%nat /\
  (issued verificationKeyRead evs <= 1)%nat /\
  (issued isProvingServiceRequest evs <= 1)%nat /\
  issued isPepperServiceRequest evs = 0%nat /\
  NoDup (map ev_request evs).

(** The result of a synchronous call into a collaborator. *)
Definition called {A} (r : string + A) : Result A :=
  match r with
  | inl msg => inl (CollaboratorError msg)
  | inr a => inr a
  end.

(** Errors other than the pepper-length error of [deriveKeylessAccount]. *)
Definition notPepperLengthError (e : Err) : Prop :=
  forall n, e <> PepperWrongLength n.

(** What line 192 hands to [getProof]: the caller's network, JWT, key pair
    and [uidKey], and the pepper in use as bytes.  Written out here for the
    statements, apart from the embedding of line 192. *)
Definition proofArguments (args : DeriveKeylessAccountArgs) (pepper : Uint8Array)
  : GetProofArgs :=
  {| gf_aptosConfig := d_aptosConfig args;
     gf_jwt := d_jwt args;
     gf_ephemeralKeyPair := d_ephemeralKeyPair args;
     gf_pepper := HexBytes pepper;
     gf_uidKey := d_uidKey args |}.

(** What line 200 hands to [KeylessAccount.create]: everything the caller
    passed, with the pepper in use and the proof.  Written out here for the
    statements, apart from the embedding of line 200. *)
Definition accountArguments (args : DeriveKeylessAccountArgs) (proof : ProofOrPromise)
  (pepper : Uint8Array) : KeylessAccountCreateArgs :=
  {| c_aptosConfig := d_aptosConfig args;
     c_jwt := d_jwt args;
     c_ephemeralKeyPair := d_ephemeralKeyPair args;
     c_uidKey := d_uidKey args;
     c_pepper := pepper;
     c_proof := proof;
     c_proofFetchCallback := d_proofFetchCallback args;
     c_derivationPath := d_derivationPath args |}.

(** How the account returned by [deriveKeylessAccount] came about: it is
    what [KeylessAccount.create] made of the arguments, the pepper and a
    proof.  With a callback the proof is the promise of [getProof] called
    at [w] on that pepper and not awaited; without one it is the signature
    that [getProof] returned when run at [w]. *)
Definition assembledFrom (args : DeriveKeylessAccountArgs) (pepper : Uint8Array)
  (w : World) (account : KeylessAccount) : Prop :=
  exists proof,
    KeylessAccount_create (accountArguments args proof pepper) = inr account /\
    ((proof = Pending (fst (getProof_started (proofArguments args pepper) w)) /\
      d_proofFetchCallback args <> None) \/
     exists sig, proof = Resolved sig /\
                 fst (getProof (proofArguments args pepper) w) = inr sig /\
                 d_proofFetchCallback args = None).

(** The GET that [getKeylessConfigurationResource] issues. *)
Definition configurationGet (args : GetKeylessConfigArgs) : FullNodeGet :=
  {| get_aptosConfig := kc_aptosConfig args;
     get_originMethod := "getKeylessConfigurationResource";
     get_path := String.append "accounts/"
                   (String.append (AccountAddress_from_toString "0x1")
                      (String.append "/resource/" "0x1::keyless_account::Configuration"));
     get_ledger_version := ledger_version_of (kc_options args) |}.

(** No entry of the cache under the key of [args] is young enough at [w]. *)
Definition noFreshEntry (args : GetKeylessConfigArgs) (w : World) : Prop :=
  forall e, cache w !! keylessConfigKey (kc_aptosConfig args) = Some e ->
            1000 * 60 * 5 < now w - timestamp e.

(** The cache read by the distance between two calls: a call for a network
    returns, only time passes, and a second call for the same network
    starts at most five minutes after the first one started; the second
    call then returns the configuration the first one returned. *)
Definition agreeWithinWindow : Prop :=
  forall (args1 args2 : GetKeylessConfigArgs) (w w1 : World) (cfg : KeylessConfiguration)
         (gap : Z),
    network (kc_aptosConfig args1) = network (kc_aptosConfig args2) ->
    getKeylessConfig args1 w = (inr cfg, w1) ->
    0 <= gap ->
    now w1 + gap - now w <= 1000 * 60 * 5 ->
    fst (getKeylessConfig args2 (snd (sleep gap w1))) = inr cfg.

(** ** Further notions used by the properties *)

(** The [body] of [getPepper], lines 109-116, once the blinder is decoded
    to [bl]. *)
Definition pepperBody (args : GetPepperArgs) (bl : Uint8Array) : PepperFetchRequest :=
  {| pf_jwt_b64 := gp_jwt args;
     pf_epk := publicKeyBcsHex (gp_ephemeralKeyPair args);
     pf_exp_date_secs := expiryDateSecs (gp_ephemeralKeyPair args);
     pf_epk_blinder := Hex_toStringWithoutPrefix bl;
     pf_uid_key := match gp_uidKey args with Some k => k | None => "sub" end;
     pf_derivation_path := gp_derivationPath args |}.

(** The request [getPepper] sends with that body. *)
Definition pepperRequest (args : GetPepperArgs) (bl : Uint8Array) : Request :=
  PepperServiceRequest
    {| post_aptosConfig := gp_aptosConfig args;
       post_path := "fetch";
       post_body := pepperBody args bl;
       post_originMethod := "getPepper";
       post_WITH_CREDENTIALS := false |}.

(** The GET that [getGroth16VerificationKeyResource] issues. *)
Definition verificationKeyGet (args : GetKeylessConfigArgs) : FullNodeGet :=
  {| get_aptosConfig := kc_aptosConfig args;
     get_originMethod := "getGroth16VerificationKeyResource";
     get_path := String.append "accounts/"
                   (String.append (AccountAddress_from_toString "0x1")
                      (String.append "/resource/" "0x1::keyless_account::Groth16VerificationKey"));
     get_ledger_version := ledger_version_of (kc_options args) |}.

(** The [json] of [getProof], lines 139-147, once blinder and pepper are
    decoded to [bl] and [pp]. *)
Definition proverBody (args : GetProofArgs) (horizon : JSNumber) (bl pp : Uint8Array)
  : ProverRequest :=
  {| pr_jwt_b64 := gf_jwt args;
     pr_epk := publicKeyBcsHex (gf_ephemeralKeyPair args);
     pr_epk_blinder := Hex_toStringWithoutPrefix bl;
     pr_exp_date_secs := expiryDateSecs (gf_ephemeralKeyPair args);
     pr_exp_horizon_secs := horizon;
     pr_pepper := Hex_toStringWithoutPrefix pp;
     pr_uid_key := match gf_uidKey args with Some k => k | None => "sub" end |}.

(** The request [getProof] sends with that body. *)
Definition proverRequest (args : GetProofArgs) (horizon : JSNumber) (bl pp : Uint8Array)
  : Request :=
  ProvingServiceRequest
    {| post_aptosConfig := gf_aptosConfig args;
       post_path := "prove";
       post_body := proverBody args horizon bl pp;
       post_originMethod := "getProof";
       post_WITH_CREDENTIALS := false |}.

(** A read of the full node for the network of [c] that names no ledger
    version. *)
Definition readsLatest (c : AptosConfig) (e : Event) : Prop :=
  exists q, ev_request e = FullNodeRequest q /\
            get_aptosConfig q = c /\
            get_ledger_version q = None.

(** What one call of [deriveKeylessAccount] may log: first at most one
    request to the pepper service, then what a run of [getProof] may log. *)
Definition derivesOnce (evs : list Event) : Prop :=
  exists pepperPart proofPart,
    evs = pepperPart ++ proofPart /\
    (length pepperPart <= 1)%nat /\
    Forall (fun e => isPepperServiceRequest e = true) pepperPart /\
    provesOnce proofPart.

(** A request to the pepper service and a request to the proving service
    that speak of the same identity: network, JWT, public key, blinder,
    expiry date and [uid_key] coincide.  Any other pair of requests
    agrees. *)
Definition agreeOnIdentity (e1 e2 : Event) : Prop :=
  match ev_request e1, ev_request e2 with
  | PepperServiceRequest q1, ProvingServiceRequest q2 =>
      post_aptosConfig q1 = post_aptosConfig q2 /\
      pf_jwt_b64 (post_body q1) = pr_jwt_b64 (post_body q2) /\
      pf_epk (post_body q1) = pr_epk (post_body q2) /\
      pf_epk_blinder (post_body q1) = pr_epk_blinder (post_body q2) /\
      pf_exp_date_secs (post_body q1) = pr_exp_date_secs (post_body q2) /\
      pf_uid_key (post_body q1) = pr_uid_key (post_body q2)
  | _, _ => True
  end.

(** A request that [getProof] may log for [args]: a read of the full node
    or the POST of a body built from [args]. *)
Definition proofStageRequest (args : GetProofArgs) (e : Event) : Prop :=
  readsLatest (gf_aptosConfig args) e \/
  exists horizon bl pp,
    Hex_fromHexInput (blinder (gf_ephemeralKeyPair args)) = inr bl /\
    Hex_fromHexInput (gf_pepper args) = inr pp /\
    ev_request e = proverRequest args horizon bl pp.

(** A request that [getPepper] may log for [args]. *)
Definition pepperStageRequest (args : GetPepperArgs) (e : Event) : Prop :=
  exists bl,
    Hex_fromHexInput (blinder (gp_ephemeralKeyPair args)) = inr bl /\
    ev_request e = pepperRequest args bl.

(** A request to the pepper service as [deriveKeylessAccount] sends it:
    for the caller's network, with the caller's JWT, the public key, expiry
    date and decoded blinder of the caller's key pair, the caller's
    [uidKey] or "sub", and the [derivationPath] that the argument object
    has at run time.  Requests to other services are not concerned. *)
Definition forwardedPepperRequest (args : DeriveKeylessAccountArgs) (e : Event) : Prop :=
  match ev_request e with
  | PepperServiceRequest q =>
      post_aptosConfig q = d_aptosConfig args /\
      pf_jwt_b64 (post_body q) = d_jwt args /\
      pf_epk (post_body q) = publicKeyBcsHex (d_ephemeralKeyPair args) /\
      pf_exp_date_secs (post_body q) = expiryDateSecs (d_ephemeralKeyPair args) /\
      (exists bl, Hex_fromHexInput (blinder (d_ephemeralKeyPair args)) = inr bl /\
                  pf_epk_blinder (post_body q) = Hex_toStringWithoutPrefix bl) /\
      pf_uid_key (post_body q) = match d_uidKey args with Some k => k | None => "sub" end /\
      pf_derivation_path (post_body q) = d_derivationPath args
  | _ => True
  end.

(** Every request that [m] logs, from whatever world it runs, satisfies
    [P]. *)
Definition logsOnly {A} (m : M A) (P : Event -> Prop) : Prop :=
  forall w, exists evs, issuedBetween w (snd (m w)) evs /\ Forall P evs.

End Stages.

(** ** A concrete deployment

    Instances of the collaborators and services, on which the properties
    below are exercised. *)

Module Devnet.

Record Account := {
  acct_jwt : string;
  acct_pepper : Uint8Array;
  acct_proof_pending : bool
}.

Definition types : KeylessTypes :=
  {| Groth16VerificationKeyResponse := string;
     Groth16Zkp := string * string * string;
     EphemeralSignature := string;
     KeylessAccount := Account;
     ProofFetchCallback := unit |}.

Definition hexDigit (c : Ascii.ascii) : option N :=
  let n := Ascii.N_of_ascii c in
  if ((48 <=? n) && (n <=? 57))%N then Some (n - 48)%N
  else if ((97 <=? n) && (n <=? 102))%N then Some (n - 87)%N
  else if ((65 <=? n) && (n <=? 70))%N then Some (n - 55)%N
  else None.

Fixpoint decodePairs (s : string) : option Uint8Array :=
  match s with
  | EmptyString => Some []
  | String c1 (String c2 rest) =>
      match hexDigit c1, hexDigit c2, decodePairs rest with
      | Some hi, Some lo, Some bs =>
          match Byte.of_N (16 * hi + lo) with
          | Some b => Some (b :: bs)
          | None => None
          end
      | _, _, _ => None
      end
  | String _ EmptyString => None
  end.

Definition stripPrefix (s : string) : string :=
  match s with
  | String "0" (String "x" rest) => rest
  | _ => s
  end.

Definition fromHexString (s : string) : string + Uint8Array :=
  match stripPrefix s with
  | EmptyString => inl "Hex string is too short"
  | digits =>
      match decodePairs digits with
      | Some bs => inr bs
      | None => inl "Hex string is not a sequence of bytes"
      end
  end.

Definition hexChar (n : N) : Ascii.ascii :=
  Ascii.ascii_of_N (if (n <? 10)%N then n + 48 else n + 87)%N.

Fixpoint toStringWithoutPrefix (bs : Uint8Array) : string :=
  match bs with
  | [] => EmptyString
  | b :: rest =>
      let n := Byte.to_N b in
      String (hexChar (n / 16)%N) (String (hexChar (n mod 16)%N) (toStringWithoutPrefix rest))
  end.

(** [Number(s)] for a string [s], after the grammar of numeric strings:
    white space around the literal is dropped; the empty string is 0; a
    literal is [Infinity] or decimal digits with an optional fraction and
    an optional exponent, with an optional sign, or unsigned binary, octal
    or hexadecimal digits after [0b], [0o] or [0x]; anything else is [NaN].
    The value is rounded to the nearest double.  A literal whose value is
    no integer has no counterpart in [JSNumber]: for it [number] gives
    [NaN], which is not what [Number] gives.  White space is the ASCII
    one. *)
Definition isWhiteSpace (c : Ascii.ascii) : bool :=
  let n := Z.of_N (Ascii.N_of_ascii c) in
  (n =? 32) || ((9 <=? n) && (n <=? 13)).

Fixpoint trimStart (s : string) : string :=
  match s with
  | String c rest => if isWhiteSpace c then trimStart rest else s
  | EmptyString => s
  end.

Fixpoint trimEnd (s : string) : string :=
  match s with
  | EmptyString => EmptyString
  | String c rest =>
      match trimEnd rest with
      | EmptyString => if isWhiteSpace c then EmptyString else String c EmptyString
      | rest' => String c rest'
      end
  end.

Definition digitValue (radix : Z) (c : Ascii.ascii) : option Z :=
  let n := Z.of_N (Ascii.N_of_ascii c) in
  let v := if (48 <=? n) && (n <=? 57) then n - 48
           else if (97 <=? n) && (n <=? 122) then n - 87
           else if (65 <=? n) && (n <=? 90) then n - 55
           else radix in
  if v <? radix then Some v else None.

(** The longest run of digits at the start of [s]: the value of [acc]
    followed by the run, the length of the run, and what comes after. *)
Fixpoint readDigits (radix : Z) (s : string) (acc count : Z) : Z * Z * string :=
  match s with
  | String c rest =>
      match digitValue radix c with
      | Some v => readDigits radix rest (radix * acc + v) (count + 1)
      | None => (acc, count, s)
      end
  | EmptyString => (acc, count, s)
  end.

(** Digits of the given radix up to the end of the string, at least one. *)
Definition integerLiteral (radix : Z) (s : string) : JSNumber :=
  match readDigits radix s 0 0 with
  | (v, count, EmptyString) => if 0 <? count then toDouble v else NaN
  | _ => NaN
  end.

(** [e] or [E], an optional sign and digits up to the end of the string; no
    exponent part at all counts as exponent 0. *)
Definition exponentPart (s : string) : option Z :=
  match s with
  | EmptyString => Some 0
  | String c rest =>
      if (Ascii.eqb c "e" || Ascii.eqb c "E")%bool then
        let (negative, digits) :=
          match rest with
          | String "-" r => (true, r)
          | String "+" r => (false, r)
          | _ => (false, rest)
          end in
        match readDigits 10 digits 0 0 with
        | (v, count, EmptyString) =>
            if 0 <? count then Some (if negative then - v else v) else None
        | _ => None
        end
      else None
  end.

(** An unsigned decimal literal, times [sign]. *)
Definition decimalLiteral (sign : Z) (s : string) : JSNumber :=
  if String.eqb s "Infinity" then Inf (sign <? 0)
  else
    let '(whole, wholeDigits, afterWhole) := readDigits 10 s 0 0 in
    let '(mantissa, fractionDigits, afterFraction) :=
      match afterWhole with
      | String "." rest => readDigits 10 rest whole 0
      | _ => (whole, 0, afterWhole)
      end in
    if 0 <? wholeDigits + fractionDigits then
      match exponentPart afterFraction with
      | Some exponent =>
          let shift := exponent - fractionDigits in
          if 0 <=? shift then toDouble (sign * mantissa * 10 ^ shift)
          else if mantissa mod 10 ^ (- shift) =? 0
               then toDouble (sign * (mantissa / 10 ^ (- shift)))
               else NaN
      | None => NaN
      end
    else NaN.

Definition number (s : string) : JSNumber :=
  match trimEnd (trimStart s) with
  | EmptyString => Num 0
  | String "0" (String "x" digits) | String "0" (String "X" digits) => integerLiteral 16 digits
  | String "0" (String "o" digits) | String "0" (String "O" digits) => integerLiteral 8 digits
  | String "0" (String "b" digits) | String "0" (String "B" digits) => integerLiteral 2 digits
  | String "-" literal => decimalLiteral (-1) literal
  | String "+" literal => decimalLiteral 1 literal
  | literal => decimalLiteral 1 literal
  end.

Definition newGroth16Zkp (a b c : string) : string + (string * string * string) :=
  inr (a, b, c).

Definition signatureFromHex (s : string) : string + string := inr s.

Definition createAccount (a : @KeylessAccountCreateArgs types) : string + Account :=
  inr {| acct_jwt := c_jwt a;
         acct_pepper := c_pepper a;
         acct_proof_pending :=
           match c_proof a with Pending _ => true | Resolved _ => false end |}.

Definition collaborators : @Collaborators types :=
  @Build_Collaborators types
    fromHexString            (* Hex_fromHexString *)
    toStringWithoutPrefix    (* Hex_toStringWithoutPrefix *)
    (fun a => a)             (* AccountAddress_from_toString *)
    number                   (* JS_Number *)
    newGroth16Zkp            (* Groth16Zkp_new *)
    signatureFromHex         (* EphemeralSignature_fromHex *)
    31%nat                   (* KeylessAccount_PEPPER_LENGTH *)
    createAccount            (* KeylessAccount_create *).

Definition pepperBytes : Uint8Array := repeat Byte.x2a 31.

(** The chain raises the horizon five minutes after the start of the clock;
    every exchange takes a tenth of a second. *)
Definition configurationAt (t : Z) : @KeylessConfigurationResponse :=
  {| max_exp_horizon_secs := if t <? 300000 then "10000000" else "20000000" |}.

Definition proverResponse : @ProverResponse :=
  {| proof_of_response := {| point_a := "0a"; point_b := "0b"; point_c := "0c" |};
     training_wheels_signature := "5e" |}.

Definition services : @Services types :=
  @Build_Services types
    (fun _ t _ => {| elapsed := 100; outcome := inr (configurationAt t) |})
    (fun _ _ _ => {| elapsed := 100; outcome := inr "vk" |})
    (fun _ _ _ => {| elapsed := 100;
                     outcome := inr {| pepper_of_response := HexBytes pepperBytes |} |})
    (fun _ _ _ => {| elapsed := 100; outcome := inr proverResponse |}).

Definition aptos : AptosConfig := {| network := "devnet" |}.

Definition keyPair : EphemeralKeyPair :=
  {| publicKeyBcsHex := "0020aa";
     expiryDateSecs := Num 86400;
     blinder := HexString "0x0102" |}.

(** The clock starts at zero with an empty log and an empty cache. *)
Definition start : @World types :=
  {| now := 0; trace := []; cache := ∅ |}.

Definition proofArgs : @GetProofArgs :=
  {| gf_aptosConfig := aptos;
     gf_jwt := "header.payload.signature";
     gf_ephemeralKeyPair := keyPair;
     gf_pepper := HexBytes pepperBytes;
     gf_uidKey := None |}.

(** The configuration read at the start, and the world once it is cached:
    two reads of a tenth of a second each. *)
Definition configuration : @KeylessConfiguration types :=
  @Build_KeylessConfiguration types "vk" (Num 10000000).

Definition readConfiguration : Event :=
  {| ev_request := FullNodeRequest
       {| get_aptosConfig := aptos;
          get_originMethod := "getKeylessConfigurationResource";
          get_path := "accounts/0x1/resource/0x1::keyless_account::Configuration";
          get_ledger_version := None |};
     ev_failure := None |}.

Definition readVerificationKey : Event :=
  {| ev_request := FullNodeRequest
       {| get_aptosConfig := aptos;
          get_originMethod := "getGroth16VerificationKeyResource";
          get_path := "accounts/0x1/resource/0x1::keyless_account::Groth16VerificationKey";
          get_ledger_version := None |};
     ev_failure := None |}.

Definition configured : @World types :=
  {| now := 200;
     trace := [readConfiguration; readVerificationKey];
     cache := {[ "keyless-configuration-devnet" :=
                   {| value := configuration; timestamp := 200 |} ]} |}.

(** *** Calls of [deriveKeylessAccount] *)

Definition configArgs : GetKeylessConfigArgs :=
  {| kc_aptosConfig := aptos; kc_options := None |}.

(** The same network, another ledger version. *)
Definition configArgsAtVersion : GetKeylessConfigArgs :=
  {| kc_aptosConfig := aptos; kc_options := Some {| ledgerVersion := Some 7 |} |}.

Definition derive (pepper : option HexInput) (callback : option unit)
  : @DeriveKeylessAccountArgs types :=
  @Build_DeriveKeylessAccountArgs types
    aptos "header.payload.signature" keyPair None pepper callback None.

(** The pepper comes from the pepper service; the proof is awaited. *)
Definition fetched := derive None None.

(** The pepper comes from the pepper service; the proof is left to the
    callback. *)
Definition fetchedInBackground := derive None (Some tt).

(** The caller supplies two bytes as pepper. *)
Definition suppliedShort := derive (Some (HexString "0x0102")) None.

(** The argument object also holds a [derivationPath]. *)
Definition derivationPath : string := "m/44'/637'/0'/0'/0'".

Definition fetchedWithPath : @DeriveKeylessAccountArgs types :=
  @Build_DeriveKeylessAccountArgs types
    aptos "header.payload.signature" keyPair None None None (Some derivationPath).

(** The world once the pepper service has answered. *)
Definition peppered : @World types :=
  snd (@getPepper types services collaborators (getPepperArgs_of fetched) start).

(** Four and six minutes after the start, the configuration having been
    cached at the start. *)
Definition fourMinutes : @World types :=
  {| now := 240000; trace := trace configured; cache := cache configured |}.

Definition sixMinutes : @World types :=
  {| now := 360000; trace := trace configured; cache := cache configured |}.

(** The configuration that the chain serves from the fifth minute on. *)
Definition laterConfiguration : @KeylessConfiguration types :=
  @Build_KeylessConfiguration types "vk" (Num 20000000).

(** The signature the proving service of this deployment leads to. *)
Definition signature : @ZeroKnowledgeSig types :=
  @Build_ZeroKnowledgeSig types
    (@Build_ZkProof types ("0a", "0b", "0c") Groth16) "5e" (Num 10000000).

(** The caller supplies 31 bytes as a hex string. *)
Definition pepperHex : string :=
  "0x2a2a2a2a2a2a2a2a2a2a2a2a2a2a2a2a2a2a2a2a2a2a2a2a2a2a2a2a2a2a2a".

Definition supplied := derive (Some (HexString pepperHex)) None.

(** The request to the pepper service of this deployment, answered. *)
Definition pepperFetched : Event :=
  {| ev_request := PepperServiceRequest
       {| post_aptosConfig := aptos;
          post_path := "fetch";
          post_body := {| pf_jwt_b64 := "header.payload.signature";
                          pf_epk := "0020aa";
                          pf_exp_date_secs := Num 86400;
                          pf_epk_blinder := "0102";
                          pf_uid_key := "sub";
                          pf_derivation_path := None |};
          post_originMethod := "getPepper";
          post_WITH_CREDENTIALS := false |};
     ev_failure := None |}.

(** The request to the proving service of this deployment, answered. *)
Definition proofRequested : Event :=
  {| ev_request := ProvingServiceRequest
       {| post_aptosConfig := aptos;
          post_path := "prove";
          post_body := {| pr_jwt_b64 := "header.payload.signature";
                          pr_epk := "0020aa";
                          pr_epk_blinder := "0102";
                          pr_exp_date_secs := Num 86400;
                          pr_exp_horizon_secs := Num 10000000;
                          pr_pepper := "2a2a2a2a2a2a2a2a2a2a2a2a2a2a2a2a2a2a2a2a2a2a2a2a2a2a2a2a2a2a2a";
                          pr_uid_key := "sub" |};
          post_originMethod := "getProof";
          post_WITH_CREDENTIALS := false |};
     ev_failure := None |}.

(** The world in which a derivation with a callback returns: the pepper
    has been fetched and the read of the configuration has left. *)
Definition readingConfiguration : @World types :=
  {| now := 200;
     trace := [pepperFetched; readConfiguration];
     cache := ∅ |}.

(** The accounts of this deployment. *)
Definition accountWithProof : Account :=
  {| acct_jwt := "header.payload.signature";
     acct_pepper := pepperBytes;
     acct_proof_pending := false |}.

Definition accountWithPendingProof : Account :=
  {| acct_jwt := "header.payload.signature";
     acct_pepper := pepperBytes;
     acct_proof_pending := true |}.

(** *** Further calls *)

Definition pepperArgs : GetPepperArgs :=
  {| gp_aptosConfig := aptos;
     gp_jwt := "header.payload.signature";
     gp_ephemeralKeyPair := keyPair;
     gp_uidKey := None;
     gp_derivationPath := None |}.

(** A key pair whose blinder is no hex string. *)
Definition keyPairWithBadBlinder : EphemeralKeyPair :=
  {| publicKeyBcsHex := "0020aa";
     expiryDateSecs := Num 86400;
     blinder := HexString "0xzz" |}.

Definition pepperArgsWithBadBlinder : GetPepperArgs :=
  {| gp_aptosConfig := aptos;
     gp_jwt := "header.payload.signature";
     gp_ephemeralKeyPair := keyPairWithBadBlinder;
     gp_uidKey := None;
     gp_derivationPath := None |}.

(** A key pair that expires exactly one horizon after the start of the
    clock. *)
Definition keyPairAtHorizon : EphemeralKeyPair :=
  {| publicKeyBcsHex := "0020aa";
     expiryDateSecs := Num 10000000;
     blinder := HexString "0x0102" |}.

Definition proofArgsAtHorizon : @GetProofArgs :=
  {| gf_aptosConfig := aptos;
     gf_jwt := "header.payload.signature";
     gf_ephemeralKeyPair := keyPairAtHorizon;
     gf_pepper := HexBytes pepperBytes;
     gf_uidKey := None |}.

(** A pepper that is no hex string. *)
Definition proofArgsWithBadPepper : @GetProofArgs :=
  {| gf_aptosConfig := aptos;
     gf_jwt := "header.payload.signature";
     gf_ephemeralKeyPair := keyPair;
     gf_pepper := HexString "0xzz";
     gf_uidKey := None |}.

(** A key pair that outlives every horizon of the chain, derived with a
    callback. *)
Definition keyPairTooLongLived : EphemeralKeyPair :=
  {| publicKeyBcsHex := "0020aa";
     expiryDateSecs := Num 99999999;
     blinder := HexString "0x0102" |}.

Definition tooLongLivedInBackground : @DeriveKeylessAccountArgs types :=
  @Build_DeriveKeylessAccountArgs types
    aptos "header.payload.signature" keyPairTooLongLived None None (Some tt) None.

(** A full node whose configuration resource holds no number. *)
Definition garbledServices : @Services types :=
  @Build_Services types
    (fun _ _ _ => {| elapsed := 100;
                     outcome := inr {| max_exp_horizon_secs := "n/a" |} |})
    (fun _ _ _ => {| elapsed := 100; outcome := inr "vk" |})
    (fun _ _ _ => {| elapsed := 100;
                     outcome := inr {| pepper_of_response := HexBytes pepperBytes |} |})
    (fun _ _ _ => {| elapsed := 100; outcome := inr proverResponse |}).

Definition garbledConfiguration : @KeylessConfiguration types :=
  @Build_KeylessConfiguration types "vk" NaN.

Definition testnet : AptosConfig := {| network := "testnet" |}.

(** The world once [getProof] has returned at the start, and a minute
    later. *)
Definition proved : @World types :=
  snd (@getProof types services collaborators proofArgs start).

Definition provedAMinuteAgo : @World types :=
  snd (@sleep types 60000 proved).

End Devnet.

(** * Properties *)

Section KeylessProperties.
Context {T : KeylessTypes} {S : Services} {C : Collaborators}.

Ltac run_monad :=
  unfold hexWithoutPrefix, currentTimeInSeconds, Date_now, cache_get, cache_set,
    exchange, call, bind, ret, throw in *;
  simpl in *.

Ltac solve_nodup :=
  simpl;
  repeat (apply NoDup_cons_2;
          [rewrite ?elem_of_cons, ?elem_of_nil; intuition discriminate|]);
  apply NoDup_nil_2.

Ltac one_event :=
  eexists [_]; split; [reflexivity|]; repeat split; simpl; auto;
  try (intros ? [= <-]; constructor; [|constructor]; eexists; split; reflexivity);
  try (intros ? ? [<-|[]]; simpl; congruence).

Lemma issuedBetween_app (w : World) (evs : list Event) (e : Event) (w1 w2 : World) :
  issuedBetween w w1 evs -> trace w2 = trace w1 ++ [e] -> issuedBetween w w2 (evs ++ [e]).
Proof.
  unfold issuedBetween. intros H1 H2. rewrite H2, H1. now rewrite <- app_assoc.
Qed.

Lemma issuedBetween_trans (w w1 w2 : World) (evs1 evs2 : list Event) :
  issuedBetween w w1 evs1 -> issuedBetween w1 w2 evs2 -> issuedBetween w w2 (evs1 ++ evs2).
Proof.
  unfold issuedBetween. intros H1 H2. rewrite H2, H1. now rewrite <- app_assoc.
Qed.

Lemma issuedBetween_refl (w : World) : issuedBetween w w [].
Proof. unfold issuedBetween. now rewrite app_nil_r. Qed.

Lemma issuedBetween_inj (w w' : World) (evs1 evs2 : list Event) :
  issuedBetween w w' evs1 -> issuedBetween w w' evs2 -> evs1 = evs2.
Proof.
  unfold issuedBetween. intros H1 H2. rewrite H1 in H2. now apply app_inv_head in H2.
Qed.

(** [getPepper] logs at most one request, a POST to the pepper service. *)
Lemma getPepper_conduct (args : GetPepperArgs) (w : World) :
  exists evs,
    issuedBetween w (snd (getPepper args w)) evs /\
    (length evs <= 1)%nat /\
    Forall (fun e => isPepperServiceRequest e = true) evs /\
    failuresPropagate evs (fst (getPepper args w)).
Proof.
  unfold getPepper, failuresPropagate. run_monad.
  destruct (Hex_fromHexInput (blinder (gp_ephemeralKeyPair args))) as [m|b]; simpl.
  - exists []. split; [apply issuedBetween_refl|]. repeat split; simpl; auto. intros ? ? [].
  - match goal with |- context [outcome ?r] => destruct (outcome r) as [m|data] eqn:Ho end; simpl.
    + eexists [_]. split; [reflexivity|]. repeat split; simpl; auto.
      intros ev msg [<-|[]]; simpl. congruence.
    + destruct (Hex_fromHexInput (pepper_of_response data)); simpl;
        (eexists [_]; split; [reflexivity|]; repeat split; simpl; auto;
         intros ev msg [<-|[]]; simpl; congruence).
Qed.

Lemma fetchKeylessConfig_conduct (args : GetKeylessConfigArgs) (w : World) :
  exists evs,
    issuedBetween w (snd (fetchKeylessConfig args w)) evs /\
    readsResourcesOnce evs /\
    failuresPropagate evs (fst (fetchKeylessConfig args w)) /\
    cache (snd (fetchKeylessConfig args w)) = cache w.
Proof.
  unfold fetchKeylessConfig, getKeylessConfigurationResource,
    getGroth16VerificationKeyResource, failuresPropagate, readsResourcesOnce.
  run_monad.
  match goal with |- context [outcome ?r] => destruct (outcome r) as [m|config] eqn:Ho end; simpl.
  - eexists [_]. split; [reflexivity|]. repeat split; simpl; auto.
    + solve_nodup.
    + intros ev msg [<-|[]]; simpl; congruence.
  - match goal with |- context [outcome ?r] => destruct (outcome r) as [m|vk] eqn:Hv end; simpl.
    + eexists [_; _]. split; [unfold issuedBetween; simpl; now rewrite <- app_assoc|].
      repeat split; simpl; auto.
      * solve_nodup.
      * intros ev msg [<-|[<-|[]]]; simpl; congruence.
    + eexists [_; _]. split; [unfold issuedBetween; simpl; now rewrite <- app_assoc|].
      repeat split; simpl; auto.
      * solve_nodup.
      * intros ev msg [<-|[<-|[]]]; simpl; congruence.
Qed.

Lemma getKeylessConfig_hit (args : GetKeylessConfigArgs) (w : World) (e : CacheEntry) :
  cache w !! keylessConfigKey (kc_aptosConfig args) = Some e ->
  now w - timestamp e <= 1000 * 60 * 5 ->
  getKeylessConfig args w = (inr (value e), w).
Proof.
  intros Hc Hage. unfold getKeylessConfig, memoizeAsync. run_monad. rewrite Hc.
  destruct (Z.leb_spec (now w - timestamp e) (1000 * 60 * 5)) as [_|Hlt]; [reflexivity | lia].
Qed.

Lemma getKeylessConfig_miss (args : GetKeylessConfigArgs) (w : World) :
  (forall e, cache w !! keylessConfigKey (kc_aptosConfig args) = Some e ->
             1000 * 60 * 5 < now w - timestamp e) ->
  getKeylessConfig args w = refillKeylessConfig args w.
Proof.
  intros Hold. unfold getKeylessConfig, memoizeAsync, refillKeylessConfig, stored. run_monad.
  destruct (cache w !! keylessConfigKey (kc_aptosConfig args)) as [e|] eqn:Hc.
  - specialize (Hold e eq_refl).
    destruct (Z.leb_spec (now w - timestamp e) (1000 * 60 * 5)) as [Hle|_]; [lia|].
    destruct (fetchKeylessConfig args w) as [[err|r] w']; reflexivity.
  - destruct (fetchKeylessConfig args w) as [[err|r] w']; reflexivity.
Qed.

(** Every run of [getKeylessConfig] is a hit or a refill. *)
Lemma getKeylessConfig_cases (args : GetKeylessConfigArgs) (w : World) :
  (exists e, cache w !! keylessConfigKey (kc_aptosConfig args) = Some e /\
             now w - timestamp e <= 1000 * 60 * 5 /\
             getKeylessConfig args w = (inr (value e), w)) \/
  ((forall e, cache w !! keylessConfigKey (kc_aptosConfig args) = Some e ->
              1000 * 60 * 5 < now w - timestamp e) /\
   getKeylessConfig args w = refillKeylessConfig args w).
Proof.
  destruct (cache w !! keylessConfigKey (kc_aptosConfig args)) as [e|] eqn:Hc.
  - destruct (Z.le_gt_cases (now w - timestamp e) (1000 * 60 * 5)) as [Hle|Hgt].
    + left. exists e. auto using getKeylessConfig_hit.
    + right. assert (Hold : forall e0, Some e = Some e0 -> 1000 * 60 * 5 < now w - timestamp e0)
        by (intros e0 [= <-]; exact Hgt).
      split; [exact Hold|]. apply getKeylessConfig_miss. now rewrite Hc.
  - right. split; [discriminate|]. apply getKeylessConfig_miss. now rewrite Hc.
Qed.

Lemma readsResourcesOnce_nil : readsResourcesOnce [].
Proof. unfold readsResourcesOnce. simpl. repeat split; auto. apply NoDup_nil_2. Qed.

Lemma getKeylessConfig_conduct (args : GetKeylessConfigArgs) (w : World) :
  exists evs,
    issuedBetween w (snd (getKeylessConfig args w)) evs /\
    readsResourcesOnce evs /\
    failuresPropagate evs (fst (getKeylessConfig args w)).
Proof.
  destruct (getKeylessConfig_cases args w) as [(e & _ & _ & ->)|[_ ->]].
  - exists []. split; [apply issuedBetween_refl|]. split; [apply readsResourcesOnce_nil|].
    intros ? ? [].
  - destruct (fetchKeylessConfig_conduct args w) as (evs & Hev & Honce & Hfail & _).
    exists evs. unfold refillKeylessConfig.
    destruct (fetchKeylessConfig args w) as [[err|r] w']; simpl in *; auto.
Qed.

(** After a run that returns, the cache holds the returned configuration. *)
Lemma getKeylessConfig_cached (args : GetKeylessConfigArgs) (w w' : World)
  (cfg : KeylessConfiguration) :
  getKeylessConfig args w = (inr cfg, w') ->
  exists e, cache w' !! keylessConfigKey (kc_aptosConfig args) = Some e /\ value e = cfg.
Proof.
  destruct (getKeylessConfig_cases args w) as [(e & Hc & _ & ->)|[_ ->]].
  - intros [= <- <-]. eauto.
  - unfold refillKeylessConfig.
    destruct (fetchKeylessConfig args w) as [[err|r] w1]; [discriminate|].
    intros [= <- <-]. eexists. unfold stored. simpl. rewrite lookup_insert_eq. eauto.
Qed.

Lemma getProof_after_config (args : GetProofArgs) (w w1 : World) (cfg : KeylessConfiguration) :
  getKeylessConfig (configArgs_of args) w = (inr cfg, w1) ->
  getProof args w =
    if jsLt (maxExpHorizonSecs cfg) (lifetime args w1)
    then (inl (EphemeralKeyPairTooLongLived (maxExpHorizonSecs cfg)), w1)
    else requestProof args (maxExpHorizonSecs cfg) w1.
Proof.
  intros Hcfg. unfold getProof, lifetime, configArgs_of in *. unfold bind at 1.
  rewrite Hcfg. unfold currentTimeInSeconds, Date_now, bind, ret, throw. simpl.
  now destruct (jsLt _ _).
Qed.

Lemma getProof_config_fails (args : GetProofArgs) (w w1 : World) (e : Err) :
  getKeylessConfig (configArgs_of args) w = (inl e, w1) ->
  getProof args w = (inl e, w1).
Proof.
  intros Hcfg. unfold getProof, configArgs_of in *. unfold bind at 1. now rewrite Hcfg.
Qed.

Lemma requestProof_conduct (args : GetProofArgs) (horizon : JSNumber) (w : World) :
  exists evs,
    issuedBetween w (snd (requestProof args horizon w)) evs /\
    (length evs <= 1)%nat /\
    Forall (fun e => isProvingServiceRequest e = true) evs /\
    (forall b, Hex_fromHexInput (gf_pepper args) = inr b -> Forall (carriesPepper b) evs) /\
    failuresPropagate evs (fst (requestProof args horizon w)) /\
    cache (snd (requestProof args horizon w)) = cache w.
Proof.
  unfold requestProof, proverRequestBody, failuresPropagate. run_monad.
  destruct (Hex_fromHexInput (blinder (gf_ephemeralKeyPair args))) as [m|bl]; simpl.
  { exists []. split; [apply issuedBetween_refl|]. repeat split; simpl; auto. intros ? ? []. }
  destruct (Hex_fromHexInput (gf_pepper args)) as [m|pp]; simpl.
  { exists []. split; [apply issuedBetween_refl|]. repeat split; simpl; auto. intros ? ? []. }
  match goal with |- context [outcome ?r] => destruct (outcome r) as [m|data] eqn:Ho end; simpl.
  { one_event. }
  destruct (Groth16Zkp_new _ _ _); simpl; [one_event|].
  destruct (EphemeralSignature_fromHex _); simpl; one_event.
Qed.

(** C1: [getProof] validates the lifetime of the ephemeral key pair against
    the horizon configured on chain.  Once [getKeylessConfig] has returned
    the configuration, if the lifetime ([expiryDateSecs] minus the current
    time in seconds) exceeds [maxExpHorizonSecs], [getProof] throws, and no
    request to the proving service has been logged; otherwise it goes on to
    request the proof: it builds the request body and posts it. *)
Theorem getProof_validates_lifetime
  (args : GetProofArgs) (w w1 : World) (cfg : KeylessConfiguration) :
  getKeylessConfig (configArgs_of args) w = (inr cfg, w1) ->
  (jsLt (maxExpHorizonSecs cfg) (lifetime args w1) = true ->
     getProof args w = (inl (EphemeralKeyPairTooLongLived (maxExpHorizonSecs cfg)), w1) /\
     exists evs, issuedBetween w w1 evs /\ issued isProvingServiceRequest evs = 0%nat) /\
  (jsLt (maxExpHorizonSecs cfg) (lifetime args w1) = false ->
     getProof args w = requestProof args (maxExpHorizonSecs cfg) w1 /\
     forall json,
       proverRequestBody args (maxExpHorizonSecs cfg) w1 = (inr json, w1) ->
       exists failure,
         issuedBetween w1 (snd (getProof args w))
           [{| ev_request := ProvingServiceRequest (proverPost (gf_aptosConfig args) json);
               ev_failure := failure |}]).
Proof.
  intros Hcfg. pose proof (getProof_after_config args w w1 cfg Hcfg) as Hrun. split.
  - intros Hlt. rewrite Hlt in Hrun. split; [exact Hrun|].
    destruct (getKeylessConfig_conduct (configArgs_of args) w) as (evs & Hev & Honce & _).
    rewrite Hcfg in Hev. exists evs. split; [exact Hev|]. apply Honce.
  - intros Hge. rewrite Hge in Hrun. split; [exact Hrun|].
    intros json Hjson. rewrite Hrun. unfold requestProof. unfold bind at 1. rewrite Hjson.
    run_monad.
    match goal with |- context [outcome ?r] => destruct (outcome r) end; simpl.
    + eexists. reflexivity.
    + eexists. destruct (Groth16Zkp_new _ _ _); simpl; [reflexivity|].
      destruct (EphemeralSignature_fromHex _); reflexivity.
Qed.

Lemma issued_app (p : Event -> bool) (l k : list Event) :
  issued p (l ++ k) = (issued p l + issued p k)%nat.
Proof. unfold issued. now rewrite List.filter_app, length_app. Qed.

Lemma issued_none (p q : Event -> bool) (evs : list Event) :
  Forall (fun e => p e = true) evs ->
  (forall e, p e = true -> q e = false) ->
  issued q evs = 0%nat.
Proof.
  intros Hall Hpq. unfold issued. induction Hall as [|e l He _ IH]; simpl; [reflexivity|].
  now rewrite (Hpq e He).
Qed.

Lemma issued_le_length (p : Event -> bool) (evs : list Event) :
  (issued p evs <= length evs)%nat.
Proof. unfold issued. apply List.filter_length_le. Qed.

Lemma proving_not_fullNode (e : Event) :
  isProvingServiceRequest e = true -> isFullNodeRequest e = false.
Proof. unfold isProvingServiceRequest, isFullNodeRequest. now destruct (ev_request e). Qed.

Lemma proving_not_pepper (e : Event) :
  isProvingServiceRequest e = true -> isPepperServiceRequest e = false.
Proof. unfold isProvingServiceRequest, isPepperServiceRequest. now destruct (ev_request e). Qed.

Lemma proving_not_read (m : string) (e : Event) :
  isProvingServiceRequest e = true -> isResourceRead m e = false.
Proof. unfold isProvingServiceRequest, isResourceRead. now destruct (ev_request e). Qed.


Lemma fullNode_not_proving (e : Event) :
  isFullNodeRequest e = true -> isProvingServiceRequest e = false.
Proof. unfold isProvingServiceRequest, isFullNodeRequest. now destruct (ev_request e). Qed.

(** Resource reads followed by at most one proving request: no request is
    logged twice. *)
Lemma NoDup_reads_then_prove (evs1 evs2 : list Event) :
  NoDup (map ev_request evs1) ->
  Forall (fun e => isFullNodeRequest e = true) evs1 ->
  Forall (fun e => isProvingServiceRequest e = true) evs2 ->
  (length evs2 <= 1)%nat ->
  NoDup (map ev_request (evs1 ++ evs2)).
Proof.
  intros Hnd Hfull Hprove Hlen. rewrite map_app. apply NoDup_app. split; [exact Hnd|]. split.
  - intros x Hx1 Hx2.
    apply list_elem_of_fmap in Hx1 as (e1 & -> & He1).
    apply list_elem_of_fmap in Hx2 as (e2 & Heq & He2).
    rewrite Forall_forall in Hfull, Hprove.
    specialize (Hfull e1 He1). specialize (Hprove e2 He2).
    unfold isFullNodeRequest, isProvingServiceRequest in *. rewrite Heq in Hfull.
    destruct (ev_request e2); discriminate.
  - destruct evs2 as [|e [|e' l]]; simpl in *; [apply NoDup_nil_2 | solve_nodup | lia].
Qed.

(** A run of [getProof]: what it logs and how failures surface. *)
Lemma getProof_conduct (args : GetProofArgs) (w : World) :
  exists evs,
    issuedBetween w (snd (getProof args w)) evs /\
    provesOnce evs /\
    (forall b, Hex_fromHexInput (gf_pepper args) = inr b ->
       Forall (fun e => isProvingServiceRequest e = true -> carriesPepper b e) evs) /\
    failuresPropagate evs (fst (getProof args w)).
Proof.
  destruct (getKeylessConfig_conduct (configArgs_of args) w) as (evs1 & Hev1 & Honce & Hfail1).
  destruct (getKeylessConfig (configArgs_of args) w) as [[err|cfg] w1] eqn:Hcfg; simpl in *.
  - rewrite (getProof_config_fails args w w1 err Hcfg). simpl.
    destruct Honce as (Hfull & Hc & Hv & Hp & Hpr & Hnd).
    exists evs1. split; [exact Hev1|]. split; [|split].
    + unfold provesOnce. rewrite Hpr. repeat split; auto.
    + intros b _. apply Forall_forall. intros e He Hprove.
      rewrite Forall_forall in Hfull. specialize (Hfull e He).
      rewrite (fullNode_not_proving e Hfull) in Hprove. discriminate.
    + intros ev msg Hin Hf. specialize (Hfail1 ev msg Hin Hf). congruence.
  - rewrite (getProof_after_config args w w1 cfg Hcfg).
    destruct Honce as (Hfull & Hc & Hv & Hp & Hpr & Hnd).
    assert (Hnocarry : forall b, Forall
              (fun e => isProvingServiceRequest e = true -> carriesPepper b e) evs1).
    { intros b. apply Forall_forall. intros e He Hprove.
      rewrite Forall_forall in Hfull. specialize (Hfull e He).
      rewrite (fullNode_not_proving e Hfull) in Hprove. discriminate. }
    destruct (jsLt (maxExpHorizonSecs cfg) (lifetime args w1)); simpl.
    + exists evs1. split; [exact Hev1|]. split; [|split].
      * unfold provesOnce. rewrite Hpr. repeat split; auto.
      * intros b _. apply Hnocarry.
      * intros ev msg Hin Hf. specialize (Hfail1 ev msg Hin Hf). discriminate.
    + destruct (requestProof_conduct args (maxExpHorizonSecs cfg) w1)
        as (evs2 & Hev2 & Hlen & Hprove & Hcarry & Hfail2 & _).
      exists (evs1 ++ evs2). split; [eapply issuedBetween_trans; eauto|]. split; [|split].
      * unfold provesOnce. rewrite !issued_app.
        rewrite (issued_none _ configurationRead evs2 Hprove (proving_not_read _)).
        rewrite (issued_none _ verificationKeyRead evs2 Hprove (proving_not_read _)).
        rewrite (issued_none _ isPepperServiceRequest evs2 Hprove proving_not_pepper).
        rewrite Hpr, Hp. pose proof (issued_le_length isProvingServiceRequest evs2).
        repeat split; try lia. now apply NoDup_reads_then_prove.
      * intros b Hb. apply Forall_app. split; [apply Hnocarry|].
        specialize (Hcarry b Hb). eapply Forall_impl; [exact Hcarry|]. auto.
      * intros ev msg Hin Hf. apply in_app_or in Hin as [Hin|Hin].
        -- specialize (Hfail1 ev msg Hin Hf). discriminate.
        -- exact (Hfail2 ev msg Hin Hf).
Qed.

(** A failed exchange is logged as such and throws the client's error. *)
Lemma exchange_failure {Q A} (service : Oracle Q A) (log : Q -> Request) (q : Q)
  (w : World) (msg : string) :
  outcome (service (trace w) (now w) q) = inl msg ->
  fst (exchange service log q w) = inl (ClientError msg) /\
  issuedBetween w (snd (exchange service log q w))
    [{| ev_request := log q; ev_failure := Some msg |}].
Proof. intros H. unfold exchange, issuedBetween. rewrite H. simpl. auto. Qed.

(** C8: nothing is retried.  Within one invocation of [getPepper] at most
    one request is logged, a POST to the pepper service; within one
    invocation of [getProof] each on-chain resource is read at most once,
    the proving service is posted to at most once, and no request appears
    twice in the log.  In both, every request that failed is the error the
    caller gets. *)
Theorem no_request_is_retried (w : World) :
  (forall args : GetPepperArgs,
     exists evs,
       issuedBetween w (snd (getPepper args w)) evs /\
       (length evs <= 1)%nat /\
       Forall (fun e => isPepperServiceRequest e = true) evs /\
       failuresPropagate evs (fst (getPepper args w))) /\
  (forall args : GetProofArgs,
     exists evs,
       issuedBetween w (snd (getProof args w)) evs /\
       provesOnce evs /\
       failuresPropagate evs (fst (getProof args w))).
Proof.
  split.
  - intros args. apply getPepper_conduct.
  - intros args. destruct (getProof_conduct args w) as (evs & Hev & Honce & _ & Hfail).
    eauto.
Qed.

Lemma call_run {A} (r : string + A) (w : World) : call r w = (called r, w).
Proof. now destruct r. Qed.

Lemma bind_ext {A B} (m : M A) (k1 k2 : A -> M B) (w : World) :
  (forall a w', k1 a w' = k2 a w') -> bind m k1 w = bind m k2 w.
Proof. intros H. unfold bind. destruct (m w) as [[e|a] w']; [reflexivity | apply H]. Qed.

Lemma bind_assoc {A B D} (m : M A) (f : A -> M B) (g : B -> M D) (w : World) :
  bind (bind m f) g w = bind m (fun a => bind (f a) g) w.
Proof. unfold bind. destruct (m w) as [[e|a] w']; reflexivity. Qed.

Lemma deriveKeylessAccount_stages (args : DeriveKeylessAccountArgs) (w : World) :
  deriveKeylessAccount args w
    = (pepper <- pepperInUse args ;; checkAndAssemble args pepper) w.
Proof.
  unfold deriveKeylessAccount, pepperInUse, checkAndAssemble.
  apply bind_ext. intros pepper w1. destruct (negb _); [reflexivity|].
  unfold assembleAccount, proofInUse. now rewrite bind_assoc.
Qed.

Lemma deriveKeylessAccount_after_pepper
  (args : DeriveKeylessAccountArgs) (w w1 : World) (pepper : Uint8Array) :
  pepperInUse args w = (inr pepper, w1) ->
  deriveKeylessAccount args w = checkAndAssemble args pepper w1.
Proof. intros H. rewrite deriveKeylessAccount_stages. unfold bind. now rewrite H. Qed.

Lemma deriveKeylessAccount_pepper_fails
  (args : DeriveKeylessAccountArgs) (w w1 : World) (e : Err) :
  pepperInUse args w = (inl e, w1) ->
  deriveKeylessAccount args w = (inl e, w1).
Proof. intros H. rewrite deriveKeylessAccount_stages. unfold bind. now rewrite H. Qed.

Lemma fetchKeylessConfig_error (args : GetKeylessConfigArgs) (w : World) (e : Err) :
  fst (fetchKeylessConfig args w) = inl e -> notPepperLengthError e.
Proof.
  unfold fetchKeylessConfig, getKeylessConfigurationResource,
    getGroth16VerificationKeyResource, notPepperLengthError.
  run_monad.
  repeat (match goal with |- context [outcome ?r] => destruct (outcome r) end; simpl);
    intros [= <-] n; discriminate.
Qed.

Lemma getKeylessConfig_error (args : GetKeylessConfigArgs) (w : World) (e : Err) :
  fst (getKeylessConfig args w) = inl e -> notPepperLengthError e.
Proof.
  destruct (getKeylessConfig_cases args w) as [(entry & _ & _ & ->)|[_ ->]]; [discriminate|].
  unfold refillKeylessConfig. pose proof (fetchKeylessConfig_error args w e) as H.
  destruct (fetchKeylessConfig args w) as [[err|r] w']; simpl in *; [exact H | discriminate].
Qed.

Lemma requestProof_error (args : GetProofArgs) (horizon : JSNumber) (w : World) (e : Err) :
  fst (requestProof args horizon w) = inl e -> notPepperLengthError e.
Proof.
  unfold requestProof, proverRequestBody, notPepperLengthError. run_monad.
  destruct (Hex_fromHexInput (blinder (gf_ephemeralKeyPair args))); simpl;
    [intros [= <-] n; discriminate|].
  destruct (Hex_fromHexInput (gf_pepper args)); simpl; [intros [= <-] n; discriminate|].
  match goal with |- context [outcome ?r] => destruct (outcome r) end; simpl;
    [intros [= <-] n; discriminate|].
  destruct (Groth16Zkp_new _ _ _); simpl; [intros [= <-] n; discriminate|].
  destruct (EphemeralSignature_fromHex _); simpl; [intros [= <-] n; discriminate|].
  discriminate.
Qed.

Lemma getProof_error (args : GetProofArgs) (w : World) (e : Err) :
  fst (getProof args w) = inl e -> notPepperLengthError e.
Proof.
  destruct (getKeylessConfig (configArgs_of args) w) as [[err|cfg] w1] eqn:Hcfg.
  - rewrite (getProof_config_fails args w w1 err Hcfg). simpl. intros [= <-].
    apply (getKeylessConfig_error (configArgs_of args) w). now rewrite Hcfg.
  - rewrite (getProof_after_config args w w1 cfg Hcfg).
    destruct (jsLt _ _); simpl.
    + intros [= <-] n. discriminate.
    + apply requestProof_error.
Qed.

(** *** Calls that are not awaited *)

Lemma await_andThen {A B} (s : Started A) (k : A -> M B) (w : World) :
  await (andThen s k) w = bind (await s) k w.
Proof. unfold await, andThen, bind. destruct (s w) as [rest w']. reflexivity. Qed.

(** Awaiting a request at once is the exchange. *)
Lemma await_request {Q A} (service : Oracle Q A) (log : Q -> Request) (q : Q) (w : World) :
  await (request service log q) w = exchange service log q w.
Proof.
  unfold await, request, exchange, throw, ret.
  destruct (outcome (service (trace w) (now w) q)); reflexivity.
Qed.

Lemma await_fetchKeylessConfig (args : GetKeylessConfigArgs) (w : World) :
  await (fetchKeylessConfig_started args) w = fetchKeylessConfig args w.
Proof.
  unfold fetchKeylessConfig_started, fetchKeylessConfig. rewrite await_andThen.
  unfold bind, getKeylessConfigurationResource_started, getKeylessConfigurationResource.
  now rewrite await_request.
Qed.

Lemma await_memoizeAsync (started : Started KeylessConfiguration)
  (func : M KeylessConfiguration) (key : string) (ttlMs : option Z) (w : World) :
  (forall w', await started w' = func w') ->
  await (memoizeAsync_started started key ttlMs) w = memoizeAsync func key ttlMs w.
Proof.
  intros Hsame.
  assert (Hrefill : forall k : KeylessConfiguration -> M KeylessConfiguration,
            await (andThen started k) w = bind func k w).
  { intros k. rewrite await_andThen. unfold bind. now rewrite Hsame. }
  unfold memoizeAsync. unfold bind at 1. unfold cache_get. simpl.
  unfold memoizeAsync_started. unfold await at 1. cbv beta.
  destruct (cache w !! key) as [entry|].
  - change ((t <- Date_now ;;
             (if match ttlMs with
                 | Some ttl => t - timestamp entry <=? ttl
                 | None => true
                 end
              then ret (value entry)
              else result <- func ;;
                   t0 <- Date_now ;;
                   _ <- cache_set key {| value := result; timestamp := t0 |} ;;
                   ret result)) w)
      with ((if match ttlMs with
                | Some ttl => now w - timestamp entry <=? ttl
                | None => true
                end
             then ret (value entry)
             else result <- func ;;
                  t0 <- Date_now ;;
                  _ <- cache_set key {| value := result; timestamp := t0 |} ;;
                  ret result) w).
    destruct (match ttlMs with Some ttl => now w - timestamp entry <=? ttl | None => true end).
    + reflexivity.
    + exact (Hrefill _).
  - exact (Hrefill _).
Qed.

Lemma await_getKeylessConfig (args : GetKeylessConfigArgs) (w : World) :
  await (getKeylessConfig_started args) w = getKeylessConfig args w.
Proof.
  unfold getKeylessConfig_started, getKeylessConfig.
  apply await_memoizeAsync, await_fetchKeylessConfig.
Qed.

(** Awaiting [getProof] at once, as line 198 does without a callback, is
    [getProof]. *)
Lemma await_getProof (args : GetProofArgs) (w : World) :
  await (getProof_started args) w = getProof args w.
Proof.
  unfold getProof_started, getProof. rewrite await_andThen.
  unfold bind at 1 3. now rewrite await_getKeylessConfig.
Qed.

(** What a call of [getProof] has done when it is left unawaited: nothing
    when the configuration is cached and young, and otherwise it has sent
    the read of the configuration resource.  The cache is as it was. *)
Lemma getProof_started_conduct (args : GetProofArgs) (w : World) :
  exists evs,
    issuedBetween w (snd (getProof_started args w)) evs /\
    (length evs <= 1)%nat /\
    Forall (fun e => exists failure,
              e = {| ev_request := FullNodeRequest (configurationGet (configArgs_of args));
                     ev_failure := failure |}) evs /\
    (noFreshEntry (configArgs_of args) w -> length evs = 1%nat) /\
    cache (snd (getProof_started args w)) = cache w.
Proof.
  unfold getProof_started, getKeylessConfig_started, memoizeAsync_started, andThen,
    noFreshEntry, configArgs_of, configurationGet.
  cbn [kc_aptosConfig kc_options].
  destruct (cache w !! _) as [entry|] eqn:Hc;
    [destruct (Z.leb_spec (now w - timestamp entry) (1000 * 60 * 5)) as [Hyoung|Hold]|].
  { exists []. simpl. split; [apply issuedBetween_refl|]. split; [lia|].
    split; [constructor|]. split; [|reflexivity].
    intros Hno. specialize (Hno entry eq_refl). lia. }
  all: unfold fetchKeylessConfig_started, getKeylessConfigurationResource_started, andThen,
         request; simpl.
  all: eexists [_]; split; [reflexivity|]; split; [simpl; lia|].
  all: split; [constructor; [eexists; reflexivity | constructor] | split; reflexivity].
Qed.

Lemma createArgs_of_written_out (args : DeriveKeylessAccountArgs) (proof : ProofOrPromise)
  (pepper : Uint8Array) :
  createArgs_of args proof pepper = accountArguments args proof pepper.
Proof. reflexivity. Qed.

Lemma getProofArgs_of_written_out (args : DeriveKeylessAccountArgs) (pepper : Uint8Array) :
  getProofArgs_of args pepper = proofArguments args pepper.
Proof. reflexivity. Qed.

(** With a callback, line 192 calls [getProof] and line 200 hands its
    promise to [KeylessAccount.create]. *)
Lemma assembleAccount_with_callback
  (args : DeriveKeylessAccountArgs) (b : Uint8Array) (w : World) (cb : ProofFetchCallback) :
  d_proofFetchCallback args = Some cb ->
  assembleAccount args b w =
    (called (KeylessAccount_create
               (accountArguments args
                  (Pending (fst (getProof_started (proofArguments args b) w))) b)),
     snd (getProof_started (proofArguments args b) w)).
Proof.
  intros Hcb. unfold assembleAccount, proofInUse. rewrite Hcb.
  rewrite getProofArgs_of_written_out.
  unfold bind, hold, ret.
  destruct (getProof_started (proofArguments args b) w) as [rest w1]. simpl.
  rewrite createArgs_of_written_out. apply call_run.
Qed.

(** Without a callback, lines 192 and 198 come to an awaited [getProof]. *)
Lemma assembleAccount_without_callback
  (args : DeriveKeylessAccountArgs) (b : Uint8Array) (w : World) :
  d_proofFetchCallback args = None ->
  assembleAccount args b w =
    match getProof (proofArguments args b) w with
    | (inl e, w1) => (inl e, w1)
    | (inr sig, w1) =>
        (called (KeylessAccount_create (accountArguments args (Resolved sig) b)), w1)
    end.
Proof.
  intros Hcb. unfold assembleAccount, proofInUse. rewrite Hcb.
  rewrite getProofArgs_of_written_out. rewrite <- await_getProof.
  unfold bind, hold, ret, await.
  destruct (getProof_started (proofArguments args b) w) as [rest w1].
  destruct (rest w1) as [[e|sig] w2]; [reflexivity|].
  rewrite createArgs_of_written_out. apply call_run.
Qed.

Lemma assembleAccount_error (args : DeriveKeylessAccountArgs) (pepper : Uint8Array)
  (w : World) (e : Err) :
  fst (assembleAccount args pepper w) = inl e -> notPepperLengthError e.
Proof.
  destruct (d_proofFetchCallback args) as [cb|] eqn:Hcb.
  - rewrite (assembleAccount_with_callback args pepper w cb Hcb). simpl.
    destruct (KeylessAccount_create _); simpl; [intros [= <-] n|]; discriminate.
  - rewrite (assembleAccount_without_callback args pepper w Hcb).
    pose proof (getProof_error (proofArguments args pepper) w) as Hp.
    destruct (getProof (proofArguments args pepper) w) as [[err|sig] w1]; simpl in *.
    + intros [= <-]. now apply Hp.
    + destruct (KeylessAccount_create _); simpl; [intros [= <-] n|]; discriminate.
Qed.

(** C2: [deriveKeylessAccount] throws whenever the pepper in use, fetched or
    supplied, is not exactly [KeylessAccount.PEPPER_LENGTH] bytes long: the
    call ends there with the error and returns no account.  A pepper of
    exactly that length passes the check: the call continues with the proof
    and the account, and never ends with the pepper-length error. *)
Theorem deriveKeylessAccount_checks_pepper_length
  (args : DeriveKeylessAccountArgs) (w w1 : World) (pepper : Uint8Array) :
  pepperInUse args w = (inr pepper, w1) ->
  (length pepper <> KeylessAccount_PEPPER_LENGTH ->
     deriveKeylessAccount args w
       = (inl (PepperWrongLength KeylessAccount_PEPPER_LENGTH), w1) /\
     forall account, fst (deriveKeylessAccount args w) <> inr account) /\
  (length pepper = KeylessAccount_PEPPER_LENGTH ->
     deriveKeylessAccount args w = assembleAccount args pepper w1 /\
     forall n, fst (deriveKeylessAccount args w) <> inl (PepperWrongLength n)).
Proof.
  intros Hp. rewrite (deriveKeylessAccount_after_pepper args w w1 pepper Hp).
  unfold checkAndAssemble. split; intros Hlen.
  - destruct (Nat.eqb_spec (length pepper) KeylessAccount_PEPPER_LENGTH) as [Heq|_];
      [contradiction|]. simpl. split; [reflexivity|]. discriminate.
  - destruct (Nat.eqb_spec (length pepper) KeylessAccount_PEPPER_LENGTH) as [_|Hne];
      [|contradiction]. simpl. split; [reflexivity|].
    intros n H. exact (assembleAccount_error args pepper w1 _ H n eq_refl).
Qed.

Lemma provesOnce_nil : provesOnce [].
Proof. unfold provesOnce. simpl. repeat split; auto. apply NoDup_nil_2. Qed.

(** The pepper in use: at most one request, to the pepper service, and none
    when the caller supplied the pepper. *)
Lemma pepperInUse_conduct (args : DeriveKeylessAccountArgs) (w : World) :
  exists evs,
    issuedBetween w (snd (pepperInUse args w)) evs /\
    (length evs <= 1)%nat /\
    Forall (fun e => isPepperServiceRequest e = true) evs /\
    (d_pepper args <> None -> evs = []).
Proof.
  unfold pepperInUse. destruct (d_pepper args) as [supplied|].
  - rewrite call_run. exists []. simpl. split; [apply issuedBetween_refl|]. auto.
  - destruct (getPepper_conduct (getPepperArgs_of args) w) as (evs & Hev & Hlen & Hall & _).
    exists evs. repeat split; auto. congruence.
Qed.

(** What [requestProof] logs: nothing when blinder or pepper do not decode,
    and otherwise the one POST of the decoded body. *)
Lemma requestProof_log (args : GetProofArgs) (horizon : JSNumber) (w : World) :
  exists evs,
    issuedBetween w (snd (requestProof args horizon w)) evs /\
    ((evs = [] /\ forall sig, fst (requestProof args horizon w) <> inr sig) \/
     exists bl pp failure,
       Hex_fromHexInput (blinder (gf_ephemeralKeyPair args)) = inr bl /\
       Hex_fromHexInput (gf_pepper args) = inr pp /\
       evs = [{| ev_request := proverRequest args horizon bl pp; ev_failure := failure |}] /\
       forall sig, fst (requestProof args horizon w) = inr sig ->
                   failure = None /\ expHorizonSecs sig = horizon).
Proof.
  unfold requestProof, proverRequestBody, proverRequest, proverBody, proverPost,
    uidKey_or_sub.
  run_monad.
  destruct (Hex_fromHexInput (blinder (gf_ephemeralKeyPair args))) as [m|bl]; simpl.
  { exists []. split; [apply issuedBetween_refl|]. left. split; [reflexivity | discriminate]. }
  destruct (Hex_fromHexInput (gf_pepper args)) as [m|pp]; simpl.
  { exists []. split; [apply issuedBetween_refl|]. left. split; [reflexivity | discriminate]. }
  match goal with |- context [outcome ?r] => destruct (outcome r) as [m|data] end; simpl.
  { eexists [_]. split; [reflexivity|]. right. exists bl, pp. eexists.
    repeat split; try reflexivity; discriminate. }
  destruct (Groth16Zkp_new _ _ _); simpl.
  { eexists [_]. split; [reflexivity|]. right. exists bl, pp. eexists.
    repeat split; try reflexivity; discriminate. }
  destruct (EphemeralSignature_fromHex _); simpl.
  { eexists [_]. split; [reflexivity|]. right. exists bl, pp. eexists.
    repeat split; try reflexivity; discriminate. }
  eexists [_]. split; [reflexivity|]. right. exists bl, pp. eexists.
  split; [reflexivity|]. split; [reflexivity|]. split; [reflexivity|].
  intros sig [= <-]. split; reflexivity.
Qed.

(** What a call left unawaited has logged counts as a run of [getProof]
    that got no further than its first read. *)
Lemma first_read_conduct (args : GetProofArgs) (b : Uint8Array) (evs : list Event) :
  (length evs <= 1)%nat ->
  Forall (fun e => exists failure,
            e = {| ev_request := FullNodeRequest (configurationGet (configArgs_of args));
                   ev_failure := failure |}) evs ->
  provesOnce evs /\
  issued isProvingServiceRequest evs = 0%nat /\
  Forall (fun e => isProvingServiceRequest e = true -> carriesPepper b e) evs /\
  Forall (readsLatest (gf_aptosConfig args)) evs.
Proof.
  intros Hlen Hall. destruct evs as [|e [|e' l]]; [| |simpl in Hlen; lia].
  - split; [apply provesOnce_nil|]. repeat split; constructor.
  - inversion Hall as [|? ? [failure ->] _]; subst.
    unfold provesOnce, issued, configurationGet. simpl. repeat split; auto.
    + solve_nodup.
    + constructor; [|constructor]. discriminate.
    + constructor; [|constructor]. eexists. split; [reflexivity|]. auto.
Qed.

(** The length check and what follows it, on the pepper [b]. *)
Lemma checkAndAssemble_conduct (args : DeriveKeylessAccountArgs) (b : Uint8Array) (w : World) :
  exists evs,
    issuedBetween w (snd (checkAndAssemble args b w)) evs /\
    provesOnce evs /\
    Forall (fun e => isProvingServiceRequest e = true -> carriesPepper b e) evs /\
    (forall account, fst (checkAndAssemble args b w) = inr account ->
                     assembledFrom args b w account).
Proof.
  unfold checkAndAssemble.
  destruct (negb (length b =? KeylessAccount_PEPPER_LENGTH)%nat).
  { exists []. split; [apply issuedBetween_refl|]. split; [apply provesOnce_nil|].
    split; [constructor|]. unfold throw. simpl. discriminate. }
  unfold assembledFrom.
  destruct (d_proofFetchCallback args) as [cb|] eqn:Hcb.
  - rewrite (assembleAccount_with_callback args b w cb Hcb). simpl.
    destruct (getProof_started_conduct (proofArguments args b) w)
      as (evs & Hev & Hlen & Hall & _).
    destruct (first_read_conduct (proofArguments args b) b evs Hlen Hall)
      as (Honce & _ & Hcarry & _).
    exists evs. split; [exact Hev|]. split; [exact Honce|]. split; [exact Hcarry|].
    intros account Hacc. eexists. split; [|left; split; [reflexivity | discriminate]].
    destruct (KeylessAccount_create _); simpl in Hacc; congruence.
  - rewrite (assembleAccount_without_callback args b w Hcb).
    destruct (getProof_conduct (proofArguments args b) w) as (evs & Hev & Honce & Hcarry & _).
    specialize (Hcarry b eq_refl).
    destruct (getProof (proofArguments args b) w) as [[err|sig] w1] eqn:Hproof; simpl in *.
    + exists evs. split; [exact Hev|]. split; [exact Honce|]. split; [exact Hcarry|].
      discriminate.
    + exists evs. split; [exact Hev|]. split; [exact Honce|]. split; [exact Hcarry|].
      intros account Hacc. exists (Resolved sig). split; [|right; eauto].
      destruct (KeylessAccount_create _); simpl in Hacc; congruence.
Qed.


Lemma logsOnly_ret {A} (a : A) (P : Event -> Prop) : logsOnly (ret a) P.
Proof. intros w. exists []. split; [apply issuedBetween_refl | constructor]. Qed.

Lemma logsOnly_throw {A} (e : Err) (P : Event -> Prop) : logsOnly (@throw _ A e) P.
Proof. intros w. exists []. split; [apply issuedBetween_refl | constructor]. Qed.

(** A step that leaves the log as it is. *)
Lemma logsOnly_silent {A} (m : M A) (P : Event -> Prop) :
  (forall w, trace (snd (m w)) = trace w) -> logsOnly m P.
Proof.
  intros Hm w. exists []. split; [|constructor].
  unfold issuedBetween. now rewrite Hm, app_nil_r.
Qed.

Lemma logsOnly_bind {A B} (m : M A) (k : A -> M B) (P : Event -> Prop) :
  logsOnly m P -> (forall a, logsOnly (k a) P) -> logsOnly (bind m k) P.
Proof.
  intros Hm Hk w. destruct (Hm w) as (evs1 & Hev1 & Hall1). unfold bind.
  destruct (m w) as [[e|a] w1]; simpl in *; [eauto|].
  destruct (Hk a w1) as (evs2 & Hev2 & Hall2).
  exists (evs1 ++ evs2). split; [eapply issuedBetween_trans; eauto|].
  apply Forall_app. auto.
Qed.

Lemma logsOnly_exchange {Q A} (service : Oracle Q A) (log : Q -> Request) (q : Q)
  (P : Event -> Prop) :
  (forall failure, P {| ev_request := log q; ev_failure := failure |}) ->
  logsOnly (exchange service log q) P.
Proof.
  intros HP w. unfold exchange.
  destruct (outcome (service (trace w) (now w) q)); simpl;
    (eexists [_]; split; [reflexivity|]; constructor; [apply HP | constructor]).
Qed.

Lemma logsOnly_requestProof (args : GetProofArgs) (horizon : JSNumber) :
  logsOnly (requestProof args horizon) (proofStageRequest args).
Proof.
  intros w.
  destruct (requestProof_log args horizon w)
    as (evs & Hev & [[-> _] | (bl & pp & failure & Hbl & Hpp & -> & _)]).
  - exists []. split; [exact Hev | constructor].
  - eexists. split; [exact Hev|]. constructor; [|constructor]. right. eauto 6.
Qed.

(** The lifetime check and the request of the proof, lines 136-170. *)
Lemma logsOnly_check (args : GetProofArgs) (config : KeylessConfiguration) :
  logsOnly (nowSecs <- currentTimeInSeconds ;;
            if jsLt (maxExpHorizonSecs config)
                 (jsSub (expiryDateSecs (gf_ephemeralKeyPair args)) nowSecs)
            then throw (EphemeralKeyPairTooLongLived (maxExpHorizonSecs config))
            else requestProof args (maxExpHorizonSecs config))
    (proofStageRequest args).
Proof.
  apply logsOnly_bind.
  - apply logsOnly_silent. reflexivity.
  - intros nowSecs. destruct (jsLt _ _); [apply logsOnly_throw | apply logsOnly_requestProof].
Qed.

(** What is left of a call of [getProof], whenever it runs: it logs reads
    of the full node and at most the POST built from the arguments. *)
Lemma getProof_rest_requests (args : GetProofArgs) (w w2 : World) :
  exists evs,
    issuedBetween w2 (snd (fst (getProof_started args w) w2)) evs /\
    Forall (proofStageRequest args) evs.
Proof.
  revert w2. change (logsOnly (fst (getProof_started args w)) (proofStageRequest args)).
  unfold getProof_started, getKeylessConfig_started, memoizeAsync_started, andThen.
  destruct (cache w !! _) as [entry|]; [destruct (_ <=? _)|].
  { simpl. apply logsOnly_bind; [apply logsOnly_ret | intros config; apply logsOnly_check]. }
  all: unfold fetchKeylessConfig_started, getKeylessConfigurationResource_started, andThen,
         request; simpl.
  all: apply logsOnly_bind; [|intros config; apply logsOnly_check].
  all: apply logsOnly_bind;
         [|intros result; apply logsOnly_bind;
             [apply logsOnly_silent; reflexivity|];
           intros t; apply logsOnly_bind; [|intros; apply logsOnly_ret];
           apply logsOnly_silent; reflexivity].
  all: apply logsOnly_bind;
         [destruct (outcome _); [apply logsOnly_throw | apply logsOnly_ret]|].
  all: intros config; apply logsOnly_bind; [|intros vk; apply logsOnly_ret].
  all: unfold getGroth16VerificationKeyResource; apply logsOnly_exchange.
  all: intros failure; left; eexists; split; [reflexivity|]; auto.
Qed.



Lemma provesOnce_reads_then_prove (reads proves : list Event) :
  readsResourcesOnce reads ->
  Forall (fun e => isProvingServiceRequest e = true) proves ->
  (length proves <= 1)%nat ->
  provesOnce (reads ++ proves).
Proof.
  intros (Hfull & Hc & Hv & Hp & Hpr & Hnd) Hprove Hlen.
  unfold provesOnce. rewrite !issued_app.
  rewrite (issued_none _ configurationRead proves Hprove (proving_not_read _)).
  rewrite (issued_none _ verificationKeyRead proves Hprove (proving_not_read _)).
  rewrite (issued_none _ isPepperServiceRequest proves Hprove proving_not_pepper).
  rewrite Hpr, Hp. pose proof (issued_le_length isProvingServiceRequest proves).
  repeat split; try lia. now apply NoDup_reads_then_prove.
Qed.

(** The lifetime check and the request of the proof, lines 136-170: at
    most one request, to the proving service. *)
Lemma check_conduct (args : GetProofArgs) (config : KeylessConfiguration) (w : World) :
  exists evs,
    issuedBetween w
      (snd ((nowSecs <- currentTimeInSeconds ;;
             if jsLt (maxExpHorizonSecs config)
                  (jsSub (expiryDateSecs (gf_ephemeralKeyPair args)) nowSecs)
             then throw (EphemeralKeyPairTooLongLived (maxExpHorizonSecs config))
             else requestProof args (maxExpHorizonSecs config)) w)) evs /\
    Forall (fun e => isProvingServiceRequest e = true) evs /\
    (length evs <= 1)%nat.
Proof.
  unfold currentTimeInSeconds, Date_now, bind at 1 2, ret. simpl.
  destruct (jsLt _ _).
  - exists []. split; [apply issuedBetween_refl|]. split; [constructor | simpl; lia].
  - destruct (requestProof_conduct args (maxExpHorizonSecs config) w)
      as (evs & Hev & Hlen & Hall & _).
    eauto.
Qed.

(** A call of [getProof] left unawaited and what is left of it, whenever
    that runs: together they log what a run of [getProof] may log. *)
Lemma getProof_whole_conduct (args : GetProofArgs) (w w2 : World) :
  exists started later,
    issuedBetween w (snd (getProof_started args w)) started /\
    issuedBetween w2 (snd (fst (getProof_started args w) w2)) later /\
    provesOnce (started ++ later).
Proof.
  unfold getProof_started, getKeylessConfig_started, memoizeAsync_started, andThen.
  set (check := fun config : KeylessConfiguration =>
         nowSecs <- currentTimeInSeconds ;;
         if jsLt (maxExpHorizonSecs config)
              (jsSub (expiryDateSecs (gf_ephemeralKeyPair args)) nowSecs)
         then throw (EphemeralKeyPairTooLongLived (maxExpHorizonSecs config))
         else requestProof args (maxExpHorizonSecs config)).
  assert (Hcheck : forall config w0, exists evs,
            issuedBetween w0 (snd (check config w0)) evs /\
            Forall (fun e => isProvingServiceRequest e = true) evs /\
            (length evs <= 1)%nat) by apply check_conduct.
  clearbody check.
  destruct (cache w !! _) as [entry|]; [destruct (_ <=? _)|].
  { simpl. exists []. destruct (Hcheck (value entry) w2) as (later & Hl & Hall & Hlen).
    exists later. split; [apply issuedBetween_refl|]. split; [exact Hl|].
    apply (provesOnce_reads_then_prove [] later); auto using readsResourcesOnce_nil. }
  all: unfold fetchKeylessConfig_started, getKeylessConfigurationResource_started, andThen,
         request; simpl.
  all: match goal with |- context [outcome ?r] => destruct (outcome r) as [m|config] end.
  all: eexists [_]; simpl.
  all: unfold getGroth16VerificationKeyResource, exchange, Date_now, cache_set, bind, ret,
         throw; simpl.
  1, 3: exists []; split; [reflexivity|]; split; [apply issuedBetween_refl|];
        apply (provesOnce_reads_then_prove [_] []); [|constructor | simpl; lia];
        unfold readsResourcesOnce, issued; simpl; repeat split; auto; solve_nodup.
  all: match goal with |- context [outcome ?r] => destruct (outcome r) as [m|vk] end; simpl.
  1, 3: eexists [_]; split; [reflexivity|]; split; [reflexivity|];
        apply (provesOnce_reads_then_prove [_; _] []); [|constructor | simpl; lia];
        unfold readsResourcesOnce, issued; simpl; repeat split; auto; solve_nodup.
  all: match goal with
       | Hc : forall config w0, exists evs, _ |- context [snd (_ ?c ?w3)] =>
           destruct (Hc c w3) as (evs & Hev & Hall & Hlen)
       end.
  all: eexists (_ :: evs); split; [reflexivity|]; split;
         [unfold issuedBetween in *; rewrite Hev; simpl; now rewrite <- app_assoc|].
  all: apply (provesOnce_reads_then_prove [_; _] evs); auto.
  all: unfold readsResourcesOnce, issued; simpl; repeat split; auto; solve_nodup.
Qed.




(** C5: with a [proofFetchCallback], [deriveKeylessAccount] does not await
    the proof.  Line 192 has called [getProof] on the caller's arguments
    and the pepper, and that call has gone as far as sending the read of
    the configuration resource when no young configuration is cached, and
    no further: nothing has been sent to the proving service.
    [KeylessAccount.create] is handed the promise, still pending, and the
    call returns in the world that the call of [getProof] left; awaited
    there at once the promise would end as [getProof] does.  Without a
    callback the proof is awaited: a failure of [getProof] is thrown, and
    otherwise the account is created with the signature [getProof]
    returned. *)
Theorem proof_awaited_only_without_callback
  (args : DeriveKeylessAccountArgs) (w w1 : World) (pepper : Uint8Array) :
  pepperInUse args w = (inr pepper, w1) ->
  length pepper = KeylessAccount_PEPPER_LENGTH ->
  let proofArgs :=
    {| gf_aptosConfig := d_aptosConfig args;
       gf_jwt := d_jwt args;
       gf_ephemeralKeyPair := d_ephemeralKeyPair args;
       gf_pepper := HexBytes pepper;
       gf_uidKey := d_uidKey args |} in
  (forall cb,
     d_proofFetchCallback args = Some cb ->
     deriveKeylessAccount args w =
       (called (KeylessAccount_create
                  {| c_aptosConfig := d_aptosConfig args;
                     c_jwt := d_jwt args;
                     c_ephemeralKeyPair := d_ephemeralKeyPair args;
                     c_uidKey := d_uidKey args;
                     c_pepper := pepper;
                     c_proof := Pending (fst (getProof_started proofArgs w1));
                     c_proofFetchCallback := Some cb;
                     c_derivationPath := d_derivationPath args |}),
        snd (getProof_started proofArgs w1)) /\
     (exists evs,
        issuedBetween w1 (snd (getProof_started proofArgs w1)) evs /\
        (length evs <= 1)%nat /\
        (noFreshEntry {| kc_aptosConfig := d_aptosConfig args; kc_options := None |} w1 ->
           length evs = 1%nat) /\
        Forall (fun e => configurationRead e = true) evs /\
        issued isProvingServiceRequest evs = 0%nat) /\
     fst (getProof_started proofArgs w1) (snd (getProof_started proofArgs w1))
       = getProof proofArgs w1) /\
  (d_proofFetchCallback args = None ->
     deriveKeylessAccount args w =
       match getProof proofArgs w1 with
       | (inl e, w2) => (inl e, w2)
       | (inr sig, w2) =>
           (called (KeylessAccount_create
                      {| c_aptosConfig := d_aptosConfig args;
                         c_jwt := d_jwt args;
                         c_ephemeralKeyPair := d_ephemeralKeyPair args;
                         c_uidKey := d_uidKey args;
                         c_pepper := pepper;
                         c_proof := Resolved sig;
                         c_proofFetchCallback := None;
                         c_derivationPath := d_derivationPath args |}), w2)
       end).
Proof.
  intros Hp Hlen proofArgs.
  change proofArgs with (proofArguments args pepper). clear proofArgs.
  rewrite (deriveKeylessAccount_after_pepper args w w1 pepper Hp).
  unfold checkAndAssemble.
  destruct (Nat.eqb_spec (length pepper) KeylessAccount_PEPPER_LENGTH) as [_|Hne];
    [|contradiction].
  simpl. split.
  - intros cb Hcb. split; [|split].
    + rewrite (assembleAccount_with_callback args pepper w1 cb Hcb).
      unfold accountArguments. now rewrite Hcb.
    + destruct (getProof_started_conduct (proofArguments args pepper) w1)
        as (evs & Hev & Hlen1 & Hall & Hmiss & _).
      destruct (first_read_conduct (proofArguments args pepper) pepper evs Hlen1 Hall)
        as (_ & Hzero & _ & _).
      exists evs. repeat split; auto.
      eapply Forall_impl; [exact Hall|]. intros e [failure ->]. reflexivity.
    + pose proof (await_getProof (proofArguments args pepper) w1) as Hawait.
      unfold await in Hawait.
      now destruct (getProof_started (proofArguments args pepper) w1).
  - intros Hcb. rewrite (assembleAccount_without_callback args pepper w1 Hcb).
    unfold accountArguments. now rewrite Hcb.
Qed.

(** C6: the [ZeroKnowledgeSig] that [getProof] returns is assembled from the
    response of the proving service and the configuration of the chain: its
    proof is the Groth16 proof built from the points [a], [b], [c] of the
    response, its training-wheels signature is parsed from the response's
    [training_wheels_signature], and its expiry horizon is the configured
    [maxExpHorizonSecs]. *)
Theorem getProof_assembles_signature
  (args : GetProofArgs) (w w' : World) (sig : ZeroKnowledgeSig) :
  getProof args w = (inr sig, w') ->
  exists cfg w1 json data groth16Zkp tws,
    getKeylessConfig (configArgs_of args) w = (inr cfg, w1) /\
    proverRequestBody args (maxExpHorizonSecs cfg) w1 = (inr json, w1) /\
    outcome (provingService (trace w1) (now w1) (proverPost (gf_aptosConfig args) json))
      = inr data /\
    Groth16Zkp_new (point_a (proof_of_response data)) (point_b (proof_of_response data))
      (point_c (proof_of_response data)) = inr groth16Zkp /\
    EphemeralSignature_fromHex (training_wheels_signature data) = inr tws /\
    sig = {| proof := {| zk_proof := groth16Zkp; zk_variant := Groth16 |};
             trainingWheelsSignature := tws;
             expHorizonSecs := maxExpHorizonSecs cfg |}.
Proof.
  destruct (getKeylessConfig (configArgs_of args) w) as [[err|cfg] w1] eqn:Hcfg.
  - rewrite (getProof_config_fails args w w1 err Hcfg). discriminate.
  - rewrite (getProof_after_config args w w1 cfg Hcfg).
    destruct (jsLt _ _); [discriminate|].
    unfold requestProof. unfold bind at 1.
    destruct (proverRequestBody args (maxExpHorizonSecs cfg) w1) as [[e|json] w2] eqn:Hjson;
      [discriminate|].
    assert (w2 = w1) as ->.
    { revert Hjson. unfold proverRequestBody. run_monad.
      destruct (Hex_fromHexInput (blinder _)); simpl; [discriminate|].
      destruct (Hex_fromHexInput (gf_pepper _)); simpl; [discriminate|]. congruence. }
    run_monad.
    destruct (outcome (provingService (trace w1) (now w1) (proverPost (gf_aptosConfig args) json)))
      as [m|data] eqn:Hdata; simpl; [discriminate|].
    destruct (Groth16Zkp_new _ _ _) as [m|g] eqn:Hg; simpl; [discriminate|].
    destruct (EphemeralSignature_fromHex _) as [m|tws] eqn:Htws; simpl; [discriminate|].
    intros [= <- <-]. exists cfg, w1, json, data, g, tws. repeat split; auto.
Qed.

(** A fetch that returns assembled the configuration from the answers to
    the two reads it made. *)
Lemma fetchKeylessConfig_returns (args : GetKeylessConfigArgs) (w w' : World)
  (cfg : KeylessConfiguration) :
  fetchKeylessConfig args w = (inr cfg, w') ->
  exists config vk,
    outcome (fullNodeConfiguration (trace w) (now w) (configurationGet args)) = inr config /\
    outcome (fullNodeVerificationKey
               (trace (snd (getKeylessConfigurationResource args w)))
               (now (snd (getKeylessConfigurationResource args w)))
               (verificationKeyGet args)) = inr vk /\
    cfg = KeylessConfiguration_create vk (JS_Number (max_exp_horizon_secs config)).
Proof.
  unfold fetchKeylessConfig, getKeylessConfigurationResource,
    getGroth16VerificationKeyResource, configurationGet, verificationKeyGet.
  run_monad.
  match goal with |- context [outcome ?r] => destruct (outcome r) as [m|config] eqn:Ho end;
    simpl; [discriminate|].
  match goal with |- context [outcome ?r] => destruct (outcome r) as [m|vk] eqn:Hv end;
    simpl; [discriminate|].
  intros [= <- <-]. exists config, vk. auto.
Qed.

Lemma keylessConfigKey_network (c1 c2 : AptosConfig) :
  network c1 = network c2 -> keylessConfigKey c1 = keylessConfigKey c2.
Proof. unfold keylessConfigKey. now intros ->. Qed.

(** C3, as the code has it: the configuration is cached per network with a
    time to live of five minutes counted from the moment it was stored.
    A call that returns read each of the two resources at most once and
    leaves the configuration it returned in the cache; when it had to
    fetch, that configuration is assembled from the verification key that
    the full node answered to the read of the Groth16VerificationKey
    resource and from the [max_exp_horizon_secs] that it answered to the
    read of the Configuration resource, converted to a number, and the
    entry is stamped with the time the call ended.  Any call for the same
    network made while that entry is in the cache and not older than five
    minutes requests nothing and returns the same configuration. *)
Theorem getKeylessConfig_cached_per_network
  (args1 args2 : GetKeylessConfigArgs) (w w1 : World) (cfg : KeylessConfiguration) :
  network (kc_aptosConfig args1) = network (kc_aptosConfig args2) ->
  getKeylessConfig args1 w = (inr cfg, w1) ->
  (exists evs, issuedBetween w w1 evs /\ readsResourcesOnce evs) /\
  exists entry,
    cache w1 !! keylessConfigKey (kc_aptosConfig args1) = Some entry /\
    value entry = cfg /\
    (noFreshEntry args1 w ->
       timestamp entry = now w1 /\
       exists config vk,
         outcome (fullNodeConfiguration (trace w) (now w) (configurationGet args1))
           = inr config /\
         outcome (fullNodeVerificationKey
                    (trace (snd (getKeylessConfigurationResource args1 w)))
                    (now (snd (getKeylessConfigurationResource args1 w)))
                    (verificationKeyGet args1)) = inr vk /\
         verificationKey cfg = vk /\
         maxExpHorizonSecs cfg = JS_Number (max_exp_horizon_secs config) /\
         cfg = KeylessConfiguration_create vk (JS_Number (max_exp_horizon_secs config))) /\
    (forall w2,
       cache w2 !! keylessConfigKey (kc_aptosConfig args1) = Some entry ->
       now w2 - timestamp entry <= 1000 * 60 * 5 ->
       getKeylessConfig args2 w2 = (inr cfg, w2)).
Proof.
  intros Hnet Hrun. split.
  - destruct (getKeylessConfig_conduct args1 w) as (evs & Hev & Honce & _).
    rewrite Hrun in Hev. eauto.
  - assert (Hhit : forall entry w2, value entry = cfg ->
              cache w2 !! keylessConfigKey (kc_aptosConfig args1) = Some entry ->
              now w2 - timestamp entry <= 1000 * 60 * 5 ->
              getKeylessConfig args2 w2 = (inr cfg, w2)).
    { intros entry w2 <- Hc Hage.
      rewrite (keylessConfigKey_network _ _ Hnet) in Hc.
      now apply getKeylessConfig_hit. }
    destruct (getKeylessConfig_cases args1 w) as [(e & Hc & Hage & Hhit1)|[Hold Hmiss]].
    + rewrite Hhit1 in Hrun. injection Hrun as <- <-.
      exists e. split; [exact Hc|]. split; [reflexivity|]. split.
      * intros Hno. specialize (Hno e Hc). lia.
      * intros w2. now apply Hhit.
    + rewrite Hmiss in Hrun. unfold refillKeylessConfig in Hrun.
      destruct (fetchKeylessConfig args1 w) as [[err|r] w'] eqn:Hfetch; [discriminate|].
      injection Hrun as <- <-.
      eexists. split; [unfold stored; simpl; apply lookup_insert_eq|].
      split; [reflexivity|]. split.
      * intros _. split; [reflexivity|].
        destruct (fetchKeylessConfig_returns _ _ _ _ Hfetch) as (config & vk & Hc & Hv & ->).
        exists config, vk. auto 6.
      * intros w2. now apply Hhit.
Qed.

(** ** Further properties of [keyless.ts] *)

(** X1: whatever the services do, every request that a call of [getPepper]
    logs is the POST of lines 117-123: path "fetch", origin "getPepper",
    without credentials, for the caller's network, with a body that holds
    the caller's JWT, the public key, expiry date and decoded blinder of
    the key pair, the caller's [derivationPath], and as [uid_key] the
    caller's [uidKey] or "sub" when there is none.  The configuration cache
    is left as it was. *)
Theorem getPepper_request_shape (args : GetPepperArgs) (w : World) :
  exists evs,
    issuedBetween w (snd (getPepper args w)) evs /\
    Forall (fun e => exists bl,
              Hex_fromHexInput (blinder (gp_ephemeralKeyPair args)) = inr bl /\
              ev_request e = pepperRequest args bl) evs /\
    cache (snd (getPepper args w)) = cache w.
Proof.
  unfold getPepper, pepperRequest, pepperBody, pepperPost, uidKey_or_sub. run_monad.
  destruct (Hex_fromHexInput (blinder (gp_ephemeralKeyPair args))) as [m|bl]; simpl.
  - exists []. split; [apply issuedBetween_refl|]. split; [constructor | reflexivity].
  - match goal with |- context [outcome ?r] => destruct (outcome r) as [m|data] end; simpl.
    + eexists [_]. split; [reflexivity|]. split; [|reflexivity].
      constructor; [|constructor]. exists bl. split; reflexivity.
    + destruct (Hex_fromHexInput (pepper_of_response data)); simpl;
        (eexists [_]; split; [reflexivity|]; split; [|reflexivity];
         constructor; [|constructor]; exists bl; split; reflexivity).
Qed.

(** X2: a blinder that does not decode makes [getPepper] throw the
    decoder's error before anything is sent: the world is untouched. *)
Theorem getPepper_rejects_blinder (args : GetPepperArgs) (w : World) (msg : string) :
  Hex_fromHexInput (blinder (gp_ephemeralKeyPair args)) = inl msg ->
  getPepper args w = (inl (CollaboratorError msg), w).
Proof.
  intros Hbl. unfold getPepper. run_monad. now rewrite Hbl.
Qed.

(** X3: when the pepper service answers, [getPepper] has sent exactly one
    request and its result is the hex decoding of the [pepper] field of the
    answer: the decoded bytes, or the decoder's error when the field does
    not decode.  The length of the pepper is not looked at. *)
Theorem getPepper_decodes_answer
  (args : GetPepperArgs) (w : World) (bl : Uint8Array) (data : PepperFetchResponse) :
  Hex_fromHexInput (blinder (gp_ephemeralKeyPair args)) = inr bl ->
  outcome (pepperService (trace w) (now w)
             (pepperPost (gp_aptosConfig args) (pepperBody args bl))) = inr data ->
  fst (getPepper args w) = called (Hex_fromHexInput (pepper_of_response data)) /\
  issuedBetween w (snd (getPepper args w))
    [{| ev_request := pepperRequest args bl; ev_failure := None |}].
Proof.
  intros Hbl Hdata. unfold getPepper, pepperRequest. run_monad. rewrite Hbl. simpl.
  unfold pepperBody, uidKey_or_sub in *. rewrite Hdata. simpl.
  destruct (Hex_fromHexInput (pepper_of_response data)); simpl; split; reflexivity.
Qed.


Lemma requestProof_never_too_long_lived
  (args : GetProofArgs) (horizon : JSNumber) (w : World) (h : JSNumber) :
  fst (requestProof args horizon w) <> inl (EphemeralKeyPairTooLongLived h).
Proof.
  unfold requestProof, proverRequestBody. run_monad.
  destruct (Hex_fromHexInput (blinder (gf_ephemeralKeyPair args))); simpl; [discriminate|].
  destruct (Hex_fromHexInput (gf_pepper args)); simpl; [discriminate|].
  match goal with |- context [outcome ?r] => destruct (outcome r) end; simpl; [discriminate|].
  destruct (Groth16Zkp_new _ _ _); simpl; [discriminate|].
  destruct (EphemeralSignature_fromHex _); simpl; discriminate.
Qed.

(** Integers up to 2^53 in magnitude are doubles. *)
Lemma asDouble_exact (z : Z) : Z.abs z <= 2 ^ 53 -> asDouble (Num z) = Num z.
Proof.
  intros Hz. unfold asDouble, toDouble, nearestDouble.
  destruct (Z.leb_spec (Z.abs z) (2 ^ 53)) as [_|Hc]; [|lia].
  assert (Hbig : 2 ^ 53 < 2 ^ 1024) by (apply Z.pow_lt_mono_r; lia).
  destruct (Z.leb_spec (2 ^ 1024) (Z.abs z)) as [Hc|_]; [lia | reflexivity].
Qed.

(** Between integers up to 2^53 in magnitude, whose difference is within
    that range too, subtraction of doubles is exact. *)
Lemma jsSub_exact (x y : Z) :
  Z.abs x <= 2 ^ 53 -> Z.abs y <= 2 ^ 53 -> Z.abs (x - y) <= 2 ^ 53 ->
  jsSub (Num x) (Num y) = Num (x - y).
Proof.
  intros Hx Hy Hd. unfold jsSub. rewrite !asDouble_exact by assumption.
  now apply (asDouble_exact (x - y)).
Qed.

(** Between such integers the comparison of doubles is that of the
    integers. *)
Lemma jsLt_exact (x y : Z) :
  Z.abs x <= 2 ^ 53 -> Z.abs y <= 2 ^ 53 -> jsLt (Num x) (Num y) = (x <? y).
Proof. intros Hx Hy. unfold jsLt. now rewrite !asDouble_exact by assumption. Qed.

(** X5: with the configuration at hand, and for a horizon, an expiry date
    and a clock that are whole seconds between 0 and 2^53 (where the
    subtraction and the comparison of line 136 are exact), [getProof]
    throws the lifetime error exactly when the horizon is strictly less
    than the expiry date minus the clock in whole seconds.  A key pair
    whose remaining lifetime equals the horizon is accepted. *)
Theorem getProof_rejects_exactly_longer_lifetimes
  (args : GetProofArgs) (w w1 : World) (cfg : KeylessConfiguration) (horizon expiry : Z) :
  getKeylessConfig (configArgs_of args) w = (inr cfg, w1) ->
  maxExpHorizonSecs cfg = Num horizon ->
  expiryDateSecs (gf_ephemeralKeyPair args) = Num expiry ->
  0 <= horizon <= 2 ^ 53 ->
  0 <= expiry <= 2 ^ 53 ->
  0 <= now w1 / 1000 <= 2 ^ 53 ->
  (fst (getProof args w) = inl (EphemeralKeyPairTooLongLived (Num horizon))
     <-> horizon < expiry - now w1 / 1000) /\
  (expiry - now w1 / 1000 = horizon ->
     getProof args w = requestProof args (Num horizon) w1).
Proof.
  intros Hcfg Hh He Hhor Hexp Hnow. rewrite (getProof_after_config args w w1 cfg Hcfg).
  unfold lifetime. rewrite Hh, He. rewrite jsSub_exact, jsLt_exact by lia.
  destruct (Z.ltb_spec horizon (expiry - now w1 / 1000)) as [Hlt|Hge]; simpl.
  - split; [split; auto | lia].
  - split; [|reflexivity]. split; [|lia].
    intros H. exfalso. exact (requestProof_never_too_long_lived _ _ _ _ H).
Qed.

(** X6: a horizon or an expiry date that is not a number disables the
    lifetime check: comparisons with [NaN] are false, so [getProof] goes on
    to request the proof whatever the clock says. *)
Theorem getProof_accepts_NaN
  (args : GetProofArgs) (w w1 : World) (cfg : KeylessConfiguration) :
  getKeylessConfig (configArgs_of args) w = (inr cfg, w1) ->
  maxExpHorizonSecs cfg = NaN \/ expiryDateSecs (gf_ephemeralKeyPair args) = NaN ->
  getProof args w = requestProof args (maxExpHorizonSecs cfg) w1.
Proof.
  intros Hcfg Hnan. rewrite (getProof_after_config args w w1 cfg Hcfg).
  unfold lifetime. destruct Hnan as [-> | ->]; simpl; [reflexivity|].
  unfold jsLt. now destruct (asDouble (maxExpHorizonSecs cfg)).
Qed.

Lemma fetchKeylessConfig_readsLatest (args : GetKeylessConfigArgs) (w : World) :
  kc_options args = None ->
  exists evs,
    issuedBetween w (snd (fetchKeylessConfig args w)) evs /\
    Forall (readsLatest (kc_aptosConfig args)) evs /\
    (length evs <= 2)%nat.
Proof.
  intros Hopt. unfold fetchKeylessConfig, getKeylessConfigurationResource,
    getGroth16VerificationKeyResource, readsLatest.
  run_monad. rewrite Hopt. simpl.
  match goal with |- context [outcome ?r] => destruct (outcome r) as [m|config] eqn:Ho end;
    simpl.
  - eexists [_]. split; [reflexivity|]. split; [|simpl; lia].
    constructor; [|constructor]. eexists. split; [reflexivity|]. auto.
  - match goal with |- context [outcome ?r] => destruct (outcome r) as [m|vk] eqn:Hv end;
      simpl;
      (eexists [_; _]; split; [unfold issuedBetween; simpl; now rewrite <- app_assoc|];
       split; [|simpl; lia];
       constructor; [|constructor; [|constructor]];
       (eexists; split; [reflexivity|]; auto)).
Qed.

Lemma getKeylessConfig_readsLatest (args : GetKeylessConfigArgs) (w : World) :
  kc_options args = None ->
  exists evs,
    issuedBetween w (snd (getKeylessConfig args w)) evs /\
    Forall (readsLatest (kc_aptosConfig args)) evs /\
    (length evs <= 2)%nat.
Proof.
  intros Hopt.
  destruct (getKeylessConfig_cases args w) as [(e & _ & _ & ->)|[_ ->]].
  - exists []. split; [apply issuedBetween_refl|]. split; [constructor | simpl; lia].
  - destruct (fetchKeylessConfig_readsLatest args w Hopt) as (evs & Hev & Hall & Hlen).
    exists evs. unfold refillKeylessConfig.
    destruct (fetchKeylessConfig args w) as [[err|r] w']; simpl in *; auto.
Qed.

(** X7: when [getProof] returns a signature, the last request of the call
    is the POST to the proving service, and it was answered.  Before it
    come only reads of the full node for the caller's network, with no
    ledger version named.  The body posted holds the decoded blinder and
    pepper, "sub" for a missing [uidKey], and as [exp_horizon_secs] the
    very horizon that the signature carries. *)
Theorem getProof_returns_after_posting
  (args : GetProofArgs) (w w' : World) (sig : ZeroKnowledgeSig) :
  getProof args w = (inr sig, w') ->
  exists reads bl pp,
    issuedBetween w w'
      (reads ++ [{| ev_request := proverRequest args (expHorizonSecs sig) bl pp;
                    ev_failure := None |}]) /\
    Forall (readsLatest (gf_aptosConfig args)) reads /\
    Hex_fromHexInput (blinder (gf_ephemeralKeyPair args)) = inr bl /\
    Hex_fromHexInput (gf_pepper args) = inr pp.
Proof.
  intros Hrun.
  destruct (getKeylessConfig_readsLatest (configArgs_of args) w eq_refl)
    as (reads & Hreads & Hall & _).
  destruct (getKeylessConfig (configArgs_of args) w) as [[err|cfg] w1] eqn:Hcfg.
  - rewrite (getProof_config_fails args w w1 err Hcfg) in Hrun. discriminate.
  - rewrite (getProof_after_config args w w1 cfg Hcfg) in Hrun.
    destruct (jsLt _ _); [discriminate|].
    destruct (requestProof_log args (maxExpHorizonSecs cfg) w1)
      as (evs & Hev & [[_ Hno] | (bl & pp & failure & Hbl & Hpp & -> & Hok)]).
    + rewrite Hrun in Hno. now destruct (Hno sig).
    + rewrite Hrun in Hev, Hok. simpl in *. destruct (Hok sig eq_refl) as [-> Hsame].
      rewrite Hsame.
      exists reads, bl, pp. split; [eapply issuedBetween_trans; eauto|]. auto.
Qed.

(** X8: the log of any call of [getProof] is at most two reads of the full
    node followed by at most one request to the proving service.  The reads
    are for the caller's network and name no ledger version: the
    configuration is always taken at the latest version. *)
Theorem getProof_reads_then_proves (args : GetProofArgs) (w : World) :
  exists reads proves,
    issuedBetween w (snd (getProof args w)) (reads ++ proves) /\
    Forall (readsLatest (gf_aptosConfig args)) reads /\
    (length reads <= 2)%nat /\
    Forall (fun e => isProvingServiceRequest e = true) proves /\
    (length proves <= 1)%nat.
Proof.
  destruct (getKeylessConfig_readsLatest (configArgs_of args) w eq_refl)
    as (reads & Hreads & Hall & Hlen).
  destruct (getKeylessConfig (configArgs_of args) w) as [[err|cfg] w1] eqn:Hcfg.
  - rewrite (getProof_config_fails args w w1 err Hcfg). simpl in *.
    exists reads, []. rewrite app_nil_r. repeat split; auto.
  - rewrite (getProof_after_config args w w1 cfg Hcfg). simpl in Hreads.
    destruct (jsLt _ _); simpl.
    + exists reads, []. rewrite app_nil_r. repeat split; auto.
    + destruct (requestProof_conduct args (maxExpHorizonSecs cfg) w1)
        as (evs & Hev & Hlen2 & Hprove & _).
      exists reads, evs. split; [eapply issuedBetween_trans; eauto|]. auto.
Qed.

(** X9: a pepper that does not decode never reaches the proving service:
    [getProof] returns no signature and logs nothing but reads of the full
    node.  The pepper is looked at only after the configuration has been
    obtained and the lifetime checked: a failure to obtain the
    configuration and the lifetime error are thrown as for any pepper, and
    the decoder's error is what the call ends with only once both are
    past and the blinder has decoded. *)
Theorem getProof_rejects_pepper (args : GetProofArgs) (w : World) (msg : string) :
  Hex_fromHexInput (gf_pepper args) = inl msg ->
  (forall sig, fst (getProof args w) <> inr sig) /\
  (exists reads,
     issuedBetween w (snd (getProof args w)) reads /\
     Forall (readsLatest (gf_aptosConfig args)) reads) /\
  (forall e w1,
     getKeylessConfig (configArgs_of args) w = (inl e, w1) ->
     getProof args w = (inl e, w1)) /\
  (forall cfg w1,
     getKeylessConfig (configArgs_of args) w = (inr cfg, w1) ->
     (jsLt (maxExpHorizonSecs cfg) (lifetime args w1) = true ->
        getProof args w = (inl (EphemeralKeyPairTooLongLived (maxExpHorizonSecs cfg)), w1)) /\
     (jsLt (maxExpHorizonSecs cfg) (lifetime args w1) = false ->
        forall bl, Hex_fromHexInput (blinder (gf_ephemeralKeyPair args)) = inr bl ->
                   getProof args w = (inl (CollaboratorError msg), w1))).
Proof.
  intros Hpp.
  destruct (getKeylessConfig_readsLatest (configArgs_of args) w eq_refl)
    as (reads & Hreads & Hall & _).
  split; [|split; [|split]].
  - destruct (getKeylessConfig (configArgs_of args) w) as [[err|cfg] w1] eqn:Hcfg.
    + rewrite (getProof_config_fails args w w1 err Hcfg). discriminate.
    + rewrite (getProof_after_config args w w1 cfg Hcfg).
      destruct (jsLt _ _); simpl; [discriminate|].
      destruct (requestProof_log args (maxExpHorizonSecs cfg) w1)
        as (evs & Hev & [[_ Hno] | (bl & pp & failure & _ & Hpp' & _)]);
        [exact Hno | congruence].
  - destruct (getKeylessConfig (configArgs_of args) w) as [[err|cfg] w1] eqn:Hcfg.
    + rewrite (getProof_config_fails args w w1 err Hcfg). simpl in *. eauto.
    + rewrite (getProof_after_config args w w1 cfg Hcfg). simpl in Hreads.
      destruct (jsLt _ _); simpl; [eauto|].
      destruct (requestProof_log args (maxExpHorizonSecs cfg) w1)
        as (evs & Hev & [[-> _] | (bl & pp & failure & _ & Hpp' & _)]); [|congruence].
      exists reads. split; [|exact Hall].
      unfold issuedBetween in *. rewrite Hev, Hreads. now rewrite app_nil_r.
  - intros e w1 Hcfg. now apply getProof_config_fails.
  - intros cfg w1 Hcfg. rewrite (getProof_after_config args w w1 cfg Hcfg). split.
    + now intros ->.
    + intros -> bl Hbl. unfold requestProof, proverRequestBody. run_monad.
      now rewrite Hbl, Hpp.
Qed.

(** X10: a signature is returned only for a key pair whose lifetime was
    within the horizon when it was checked: for a horizon, an expiry date
    and a clock that are whole seconds between 0 and 2^53, the horizon that
    the signature carries is at least the expiry date minus the clock, in
    whole seconds, at the moment the configuration was at hand. *)
Theorem getProof_signature_covers_lifetime
  (args : GetProofArgs) (w w' : World) (sig : ZeroKnowledgeSig) (horizon expiry : Z) :
  getProof args w = (inr sig, w') ->
  expHorizonSecs sig = Num horizon ->
  expiryDateSecs (gf_ephemeralKeyPair args) = Num expiry ->
  0 <= horizon <= 2 ^ 53 ->
  0 <= expiry <= 2 ^ 53 ->
  0 <= now (snd (getKeylessConfig (configArgs_of args) w)) / 1000 <= 2 ^ 53 ->
  expiry - now (snd (getKeylessConfig (configArgs_of args) w)) / 1000 <= horizon.
Proof.
  intros Hrun Hh He Hhor Hexp Hnow.
  destruct (getKeylessConfig (configArgs_of args) w) as [[err|cfg] w1] eqn:Hcfg.
  - rewrite (getProof_config_fails args w w1 err Hcfg) in Hrun. discriminate.
  - rewrite (getProof_after_config args w w1 cfg Hcfg) in Hrun. simpl in *.
    destruct (jsLt (maxExpHorizonSecs cfg) (lifetime args w1)) eqn:Hlt; [discriminate|].
    destruct (requestProof_log args (maxExpHorizonSecs cfg) w1)
      as (evs & _ & [[_ Hno] | (bl & pp & failure & _ & _ & _ & Hok)]).
    + rewrite Hrun in Hno. now destruct (Hno sig).
    + rewrite Hrun in Hok. destruct (Hok sig eq_refl) as [_ Hsame].
      unfold lifetime in Hlt. rewrite <- Hsame, Hh, He in Hlt.
      rewrite jsSub_exact, jsLt_exact in Hlt by lia.
      now apply Z.ltb_ge in Hlt.
Qed.

Lemma getPepper_requests (args : GetPepperArgs) (w : World) :
  exists evs,
    issuedBetween w (snd (getPepper args w)) evs /\
    Forall (pepperStageRequest args) evs.
Proof.
  unfold getPepper, pepperStageRequest, pepperRequest, pepperBody, pepperPost, uidKey_or_sub.
  run_monad.
  destruct (Hex_fromHexInput (blinder (gp_ephemeralKeyPair args))) as [m|bl]; simpl.
  - exists []. split; [apply issuedBetween_refl | constructor].
  - match goal with |- context [outcome ?r] => destruct (outcome r) as [m|data] end; simpl.
    + eexists [_]. split; [reflexivity|].
      constructor; [|constructor]. exists bl. split; reflexivity.
    + destruct (Hex_fromHexInput (pepper_of_response data)); simpl;
        (eexists [_]; split; [reflexivity|];
         constructor; [|constructor]; exists bl; split; reflexivity).
Qed.

Lemma getProof_requests (args : GetProofArgs) (w : World) :
  exists evs,
    issuedBetween w (snd (getProof args w)) evs /\
    Forall (proofStageRequest args) evs.
Proof.
  destruct (getKeylessConfig_readsLatest (configArgs_of args) w eq_refl)
    as (reads & Hreads & Hall & _).
  assert (Hstage : Forall (proofStageRequest args) reads).
  { eapply Forall_impl; [exact Hall|]. intros e He. now left. }
  destruct (getKeylessConfig (configArgs_of args) w) as [[err|cfg] w1] eqn:Hcfg.
  - rewrite (getProof_config_fails args w w1 err Hcfg). eauto.
  - rewrite (getProof_after_config args w w1 cfg Hcfg). simpl in Hreads.
    destruct (jsLt _ _); simpl; [eauto|].
    destruct (requestProof_log args (maxExpHorizonSecs cfg) w1)
      as (evs & Hev & [[-> _] | (bl & pp & failure & Hbl & Hpp & -> & _)]).
    + exists reads. split; [|exact Hstage].
      unfold issuedBetween in *. rewrite Hev, Hreads. now rewrite app_nil_r.
    + eexists. split; [eapply issuedBetween_trans; eauto|].
      apply Forall_app. split; [exact Hstage|].
      constructor; [|constructor]. right. eauto 6.
Qed.

Lemma pepperInUse_never_too_long_lived
  (args : DeriveKeylessAccountArgs) (w : World) (h : JSNumber) :
  fst (pepperInUse args w) <> inl (EphemeralKeyPairTooLongLived h).
Proof.
  unfold pepperInUse. destruct (d_pepper args) as [supplied|].
  - rewrite call_run. simpl. destruct (Hex_fromHexInput supplied); discriminate.
  - unfold getPepper. run_monad.
    destruct (Hex_fromHexInput (blinder _)); simpl; [discriminate|].
    match goal with |- context [outcome ?r] => destruct (outcome r) end; simpl; [discriminate|].
    destruct (Hex_fromHexInput _); discriminate.
Qed.

(** X11: with a [proofFetchCallback], [deriveKeylessAccount] never throws
    the lifetime error of [getProof]: the proof is not awaited, so a key
    pair that lives too long does not fail the derivation itself. *)
Theorem callback_defers_lifetime_error
  (args : DeriveKeylessAccountArgs) (w : World) (cb : ProofFetchCallback) (h : JSNumber) :
  d_proofFetchCallback args = Some cb ->
  fst (deriveKeylessAccount args w) <> inl (EphemeralKeyPairTooLongLived h).
Proof.
  intros Hcb. pose proof (pepperInUse_never_too_long_lived args w h) as Hpepper.
  destruct (pepperInUse args w) as [[err|pepper] w1] eqn:Hp; simpl in Hpepper.
  - rewrite (deriveKeylessAccount_pepper_fails args w w1 err Hp). simpl.
    intros [= ->]. now apply Hpepper.
  - rewrite (deriveKeylessAccount_after_pepper args w w1 pepper Hp).
    unfold checkAndAssemble.
    destruct (negb _); simpl; [discriminate|].
    rewrite (assembleAccount_with_callback args pepper w1 cb Hcb). simpl.
    destruct (KeylessAccount_create _); discriminate.
Qed.

(** X12: one call of [deriveKeylessAccount] sends at most one request to
    the pepper service, and it comes first; after it each on-chain resource
    is read at most once and the proving service is posted to at most once,
    no request twice.  That holds of the log of the call and, when the call
    returns with the proof pending, also of that log followed by what is
    left of [getProof] logs, whenever it runs. *)
Theorem deriveKeylessAccount_request_budget (args : DeriveKeylessAccountArgs) (w : World) :
  exists evs,
    issuedBetween w (snd (deriveKeylessAccount args w)) evs /\
    derivesOnce evs /\
    forall pepper w1 cb w2,
      pepperInUse args w = (inr pepper, w1) ->
      length pepper = KeylessAccount_PEPPER_LENGTH ->
      d_proofFetchCallback args = Some cb ->
      let proofArgs :=
        {| gf_aptosConfig := d_aptosConfig args;
           gf_jwt := d_jwt args;
           gf_ephemeralKeyPair := d_ephemeralKeyPair args;
           gf_pepper := HexBytes pepper;
           gf_uidKey := d_uidKey args |} in
      exists later,
        issuedBetween w2 (snd (fst (getProof_started proofArgs w1) w2)) later /\
        derivesOnce (evs ++ later).
Proof.
  destruct (pepperInUse_conduct args w) as (evsP & HevP & Hlen & Hall & _).
  unfold derivesOnce.
  destruct (pepperInUse args w) as [[err|pepper] w1] eqn:Hp; simpl in HevP.
  - rewrite (deriveKeylessAccount_pepper_fails args w w1 err Hp). simpl.
    exists evsP. split; [exact HevP|]. split; [|discriminate].
    exists evsP, []. rewrite app_nil_r.
    repeat split; auto; apply provesOnce_nil.
  - rewrite (deriveKeylessAccount_after_pepper args w w1 pepper Hp).
    destruct (checkAndAssemble_conduct args pepper w1) as (evsR & HevR & Honce & _).
    exists (evsP ++ evsR). split; [eapply issuedBetween_trans; eauto|].
    split; [exists evsP, evsR; auto|].
    intros pepper' w1' cb w2 [= <- <-] Hlength Hcb.
    destruct (getProof_whole_conduct (proofArguments args pepper) w1 w2)
      as (started & later & Hstarted & Hlater & Hwhole).
    assert (evsR = started) as ->.
    { apply (issuedBetween_inj w1 (snd (checkAndAssemble args pepper w1))); [exact HevR|].
      unfold checkAndAssemble.
      destruct (Nat.eqb_spec (length pepper) KeylessAccount_PEPPER_LENGTH); [|contradiction].
      simpl. now rewrite (assembleAccount_with_callback args pepper w1 cb Hcb). }
    exists later. split; [exact Hlater|].
    exists evsP, (started ++ later). rewrite app_assoc. auto.
Qed.

Lemma pepperInUse_requests (args : DeriveKeylessAccountArgs) (w : World) :
  exists evs,
    issuedBetween w (snd (pepperInUse args w)) evs /\
    Forall (pepperStageRequest (getPepperArgs_of args)) evs.
Proof.
  unfold pepperInUse. destruct (d_pepper args) as [supplied|].
  - rewrite call_run. exists []. split; [apply issuedBetween_refl | constructor].
  - apply getPepper_requests.
Qed.

Lemma checkAndAssemble_requests (args : DeriveKeylessAccountArgs) (b : Uint8Array)
  (w : World) :
  exists evs,
    issuedBetween w (snd (checkAndAssemble args b w)) evs /\
    Forall (proofStageRequest (proofArguments args b)) evs.
Proof.
  unfold checkAndAssemble. destruct (negb _).
  { exists []. split; [apply issuedBetween_refl | constructor]. }
  destruct (d_proofFetchCallback args) as [cb|] eqn:Hcb.
  - rewrite (assembleAccount_with_callback args b w cb Hcb). simpl.
    destruct (getProof_started_conduct (proofArguments args b) w)
      as (evs & Hev & Hlen & Hall & _).
    destruct (first_read_conduct (proofArguments args b) b evs Hlen Hall)
      as (_ & _ & _ & Hreads).
    exists evs. split; [exact Hev|].
    eapply Forall_impl; [exact Hreads|]. intros e He. now left.
  - rewrite (assembleAccount_without_callback args b w Hcb).
    destruct (getProof_requests (proofArguments args b) w) as (evs & Hev & Hall).
    exists evs. split; [|exact Hall].
    destruct (getProof (proofArguments args b) w) as [[e|sig] w2]; exact Hev.
Qed.

Lemma pepper_and_proof_agree (args : DeriveKeylessAccountArgs) (pepper : Uint8Array)
  (e1 e2 : Event) :
  pepperStageRequest (getPepperArgs_of args) e1 ->
  proofStageRequest (proofArguments args pepper) e2 ->
  agreeOnIdentity e1 e2.
Proof.
  intros (bl & Hbl & H1) [(q & H2 & _)|(horizon & bl' & pp & Hbl' & _ & H2)];
    unfold agreeOnIdentity; rewrite H1, H2; simpl; [exact I|].
  simpl in *. assert (bl' = bl) as -> by congruence. repeat split.
Qed.

Lemma proofStage_first_agrees (a : GetProofArgs) (e1 e2 : Event) :
  proofStageRequest a e1 -> agreeOnIdentity e1 e2.
Proof.
  intros [(q & H1 & _)|(horizon & bl & pp & _ & _ & H1)];
    unfold agreeOnIdentity; now rewrite H1.
Qed.

Lemma pepperStage_second_agrees (a : GetPepperArgs) (e1 e2 : Event) :
  pepperStageRequest a e2 -> agreeOnIdentity e1 e2.
Proof.
  intros (bl & _ & H2). unfold agreeOnIdentity. rewrite H2. simpl.
  now destruct (ev_request e1).
Qed.

(** X13: within one call of [deriveKeylessAccount] the pepper and the proof
    are requested for the same identity: whenever the log of the call holds
    a request to the pepper service and a request to the proving service,
    the two name the same network, JWT, public key, blinder, expiry date
    and [uid_key].  The same holds between the requests of the call and
    those that what is left of [getProof] logs later, when the call
    returns with the proof pending. *)
Theorem deriveKeylessAccount_one_identity (args : DeriveKeylessAccountArgs) (w : World) :
  exists evs,
    issuedBetween w (snd (deriveKeylessAccount args w)) evs /\
    Forall (fun e1 => Forall (agreeOnIdentity e1) evs) evs /\
    forall pepper w1 w2,
      pepperInUse args w = (inr pepper, w1) ->
      let proofArgs :=
        {| gf_aptosConfig := d_aptosConfig args;
           gf_jwt := d_jwt args;
           gf_ephemeralKeyPair := d_ephemeralKeyPair args;
           gf_pepper := HexBytes pepper;
           gf_uidKey := d_uidKey args |} in
      exists later,
        issuedBetween w2 (snd (fst (getProof_started proofArgs w1) w2)) later /\
        Forall (fun e1 => Forall (agreeOnIdentity e1) later) evs.
Proof.
  destruct (pepperInUse_requests args w) as (evsP & HevP & HallP).
  destruct (pepperInUse args w) as [[err|pepper] w1] eqn:Hp; simpl in HevP.
  - rewrite (deriveKeylessAccount_pepper_fails args w w1 err Hp). simpl.
    exists evsP. split; [exact HevP|]. split; [|discriminate].
    apply Forall_forall. intros e1 _. apply Forall_forall. intros e2 He2.
    rewrite Forall_forall in HallP. eapply pepperStage_second_agrees. now apply HallP.
  - rewrite (deriveKeylessAccount_after_pepper args w w1 pepper Hp).
    destruct (checkAndAssemble_requests args pepper w1) as (evsR & HevR & HallR).
    exists (evsP ++ evsR). split; [eapply issuedBetween_trans; eauto|].
    rewrite Forall_forall in HallP, HallR. split.
    + apply Forall_forall. intros e1 He1. apply Forall_forall. intros e2 He2.
      apply elem_of_app in He1 as [He1|He1]; apply elem_of_app in He2 as [He2|He2].
      * eapply pepperStage_second_agrees. now apply HallP.
      * eapply pepper_and_proof_agree; [now apply HallP | now apply HallR].
      * eapply proofStage_first_agrees. now apply HallR.
      * eapply proofStage_first_agrees. now apply HallR.
    + intros pepper' w1' w2 [= <- <-] proofArgs.
      change proofArgs with (proofArguments args pepper). clear proofArgs.
      destruct (getProof_rest_requests (proofArguments args pepper) w1 w2)
        as (later & Hlater & HallL).
      exists later. split; [exact Hlater|].
      rewrite Forall_forall in HallL.
      apply Forall_forall. intros e1 He1. apply Forall_forall. intros e2 He2.
      apply elem_of_app in He1 as [He1|He1].
      * eapply pepper_and_proof_agree; [now apply HallP | now apply HallL].
      * eapply proofStage_first_agrees. now apply HallR.
Qed.

Lemma append_inj (p a b : string) : String.append p a = String.append p b -> a = b.
Proof. induction p as [|c p IH]; simpl; [auto|]. intros [= H]. auto. Qed.

Lemma keylessConfigKey_inj (c1 c2 : AptosConfig) :
  keylessConfigKey c1 = keylessConfigKey c2 -> network c1 = network c2.
Proof. unfold keylessConfigKey. apply append_inj. Qed.

(** X14: the cache is kept per network.  A call of [getKeylessConfig] for
    one network neither reads nor changes what is cached for another
    network: the entry of every other network is after the call what it
    was before.  ([memoizeAsync] is the time-to-live cache described with
    its definition.) *)
Theorem getKeylessConfig_keeps_other_networks
  (args : GetKeylessConfigArgs) (other : AptosConfig) (w : World) :
  network other <> network (kc_aptosConfig args) ->
  cache (snd (getKeylessConfig args w)) !! keylessConfigKey other
    = cache w !! keylessConfigKey other.
Proof.
  intros Hne.
  destruct (getKeylessConfig_cases args w) as [(e & _ & _ & ->)|[_ ->]]; [reflexivity|].
  unfold refillKeylessConfig.
  destruct (fetchKeylessConfig_conduct args w) as (evs & _ & _ & _ & Hcache).
  destruct (fetchKeylessConfig args w) as [[err|r] w1]; simpl in *; [now rewrite Hcache|].
  rewrite lookup_insert_ne; [now rewrite Hcache|].
  intros Hkey. apply Hne. symmetry. now apply keylessConfigKey_inj.
Qed.

(** X15: proofs requested in a row share the configuration.  After a call
    of [getProof] that returned a signature, a call for the same network
    made while the cached configuration is still there and at most five
    minutes old reads nothing from the full node: all it may log is one
    request to the proving service.  ([memoizeAsync] is the time-to-live
    cache described with its definition.) *)
Theorem getProof_again_reads_nothing
  (args1 args2 : GetProofArgs) (w w1 w2 : World) (sig : ZeroKnowledgeSig) :
  getProof args1 w = (inr sig, w1) ->
  network (gf_aptosConfig args1) = network (gf_aptosConfig args2) ->
  cache w2 !! keylessConfigKey (gf_aptosConfig args1)
    = cache w1 !! keylessConfigKey (gf_aptosConfig args1) ->
  (forall e, cache w1 !! keylessConfigKey (gf_aptosConfig args1) = Some e ->
             now w2 - timestamp e <= 1000 * 60 * 5) ->
  exists proves,
    issuedBetween w2 (snd (getProof args2 w2)) proves /\
    Forall (fun e => isProvingServiceRequest e = true) proves /\
    (length proves <= 1)%nat.
Proof.
  intros Hrun Hnet Hsame Hyoung.
  assert (Hentry : exists e, cache w1 !! keylessConfigKey (gf_aptosConfig args1) = Some e).
  { destruct (getKeylessConfig (configArgs_of args1) w) as [[err|cfg] w0] eqn:Hcfg.
    - rewrite (getProof_config_fails args1 w w0 err Hcfg) in Hrun. discriminate.
    - rewrite (getProof_after_config args1 w w0 cfg Hcfg) in Hrun.
      destruct (jsLt _ _); [discriminate|].
      destruct (getKeylessConfig_cached _ _ _ _ Hcfg) as (e & He & _).
      destruct (requestProof_conduct args1 (maxExpHorizonSecs cfg) w0)
        as (_ & _ & _ & _ & _ & _ & Hcache).
      rewrite Hrun in Hcache. simpl in Hcache. exists e. now rewrite Hcache. }
  destruct Hentry as (e & He).
  assert (Hhit : getKeylessConfig (configArgs_of args2) w2 = (inr (value e), w2)).
  { apply getKeylessConfig_hit.
    - simpl. rewrite <- (keylessConfigKey_network _ _ Hnet). now rewrite Hsame.
    - now apply Hyoung. }
  rewrite (getProof_after_config args2 w2 w2 (value e) Hhit).
  destruct (jsLt _ _); simpl.
  - exists []. split; [apply issuedBetween_refl|]. split; [constructor | simpl; lia].
  - destruct (requestProof_conduct args2 (maxExpHorizonSecs (value e)) w2)
      as (evs & Hev & Hlen & Hall & _).
    eauto.
Qed.

(** X16: [deriveKeylessAccount] hands its whole argument object to
    [getPepper] (line 183): every request to the pepper service that it
    logs is for the caller's network and JWT, holds the public key, expiry
    date and decoded blinder of the caller's key pair, has the caller's
    [uidKey] or "sub" as [uid_key], and carries as [derivation_path]
    whatever [derivationPath] the argument object has at run time, nothing
    for an object of the declared type. *)
Theorem deriveKeylessAccount_forwards_derivation_path
  (args : DeriveKeylessAccountArgs) (w : World) :
  exists evs,
    issuedBetween w (snd (deriveKeylessAccount args w)) evs /\
    Forall (forwardedPepperRequest args) evs.
Proof.
  assert (HP : forall e, pepperStageRequest (getPepperArgs_of args) e ->
                         forwardedPepperRequest args e).
  { intros e (bl & Hbl & He). unfold forwardedPepperRequest. rewrite He. simpl.
    repeat split; eauto. }
  assert (HR : forall a e, proofStageRequest a e -> forwardedPepperRequest args e).
  { intros a e [(q & He & _)|(horizon & bl & pp & _ & _ & He)];
      unfold forwardedPepperRequest; now rewrite He. }
  destruct (pepperInUse_requests args w) as (evsP & HevP & HallP).
  apply (Forall_impl _ _ _ HallP) in HP.
  destruct (pepperInUse args w) as [[err|pepper] w1] eqn:Hp; simpl in HevP.
  - rewrite (deriveKeylessAccount_pepper_fails args w w1 err Hp). simpl. eauto.
  - rewrite (deriveKeylessAccount_after_pepper args w w1 pepper Hp).
    destruct (checkAndAssemble_requests args pepper w1) as (evsR & HevR & HallR).
    apply (Forall_impl _ _ _ HallR) in HR.
    exists (evsP ++ evsR). split; [eapply issuedBetween_trans; eauto | now apply Forall_app].
Qed.

End KeylessProperties.


(** * The properties at work on the concrete deployment *)

Section DevnetRuns.

#[local] Existing Instance Devnet.types.
#[local] Existing Instance Devnet.services.
#[local] Existing Instance Devnet.collaborators.

(** A key pair expiring after a day against a horizon of ten million
    seconds: [getProof] goes on to request the proof. *)
Lemma getProof_validates_lifetime_witness :
  getKeylessConfig (configArgs_of Devnet.proofArgs) Devnet.start
    = (inr Devnet.configuration, Devnet.configured) /\
  getProof Devnet.proofArgs Devnet.start
    = requestProof Devnet.proofArgs (Num 10000000) Devnet.configured.
Proof.
  assert (H : getKeylessConfig (configArgs_of Devnet.proofArgs) Devnet.start
              = (inr Devnet.configuration, Devnet.configured))
    by (vm_compute; reflexivity).
  split; [exact H|].
  apply (proj2 (getProof_validates_lifetime Devnet.proofArgs Devnet.start
                  Devnet.configured Devnet.configuration H)).
  vm_compute. reflexivity.
Defined.

(** A supplied pepper of two bytes is refused. *)
Lemma deriveKeylessAccount_checks_pepper_length_witness :
  pepperInUse Devnet.suppliedShort Devnet.start = (inr [x01; x02], Devnet.start) /\
  deriveKeylessAccount Devnet.suppliedShort Devnet.start
    = (inl (PepperWrongLength 31), Devnet.start).
Proof.
  assert (H : pepperInUse Devnet.suppliedShort Devnet.start = (inr [x01; x02], Devnet.start))
    by (vm_compute; reflexivity).
  split; [exact H|].
  apply (proj1 (deriveKeylessAccount_checks_pepper_length
                  Devnet.suppliedShort Devnet.start Devnet.start [x01; x02] H)).
  vm_compute. lia.
Defined.

(** The configuration cached at the start is returned four minutes later,
    also to a call that names another ledger version. *)
Lemma getKeylessConfig_cached_per_network_witness :
  network (kc_aptosConfig Devnet.configArgs)
    = network (kc_aptosConfig Devnet.configArgsAtVersion) /\
  getKeylessConfig Devnet.configArgs Devnet.start
    = (inr Devnet.configuration, Devnet.configured) /\
  getKeylessConfig Devnet.configArgsAtVersion Devnet.fourMinutes
    = (inr Devnet.configuration, Devnet.fourMinutes).
Proof.
  assert (Hnet : network (kc_aptosConfig Devnet.configArgs)
                 = network (kc_aptosConfig Devnet.configArgsAtVersion)) by reflexivity.
  assert (Hrun : getKeylessConfig Devnet.configArgs Devnet.start
                 = (inr Devnet.configuration, Devnet.configured))
    by (vm_compute; reflexivity).
  split; [exact Hnet|]. split; [exact Hrun|].
  destruct (getKeylessConfig_cached_per_network
              Devnet.configArgs Devnet.configArgsAtVersion Devnet.start Devnet.configured
              Devnet.configuration Hnet Hrun)
    as (_ & entry & Hentry & _ & _ & Hlater).
  apply Hlater.
  - exact Hentry.
  - vm_compute in Hentry. injection Hentry as <-. vm_compute. discriminate.
Defined.


(** With a callback the account comes back with its proof pending, the
    pepper fetched and the read of the configuration on its way; without
    one it comes back with the proof, after the two reads and the POST. *)
Lemma proof_awaited_only_without_callback_witness :
  pepperInUse Devnet.fetchedInBackground Devnet.start
    = (inr Devnet.pepperBytes, Devnet.peppered) /\
  length Devnet.pepperBytes = KeylessAccount_PEPPER_LENGTH /\
  deriveKeylessAccount Devnet.fetchedInBackground Devnet.start
    = (inr Devnet.accountWithPendingProof, Devnet.readingConfiguration) /\
  pepperInUse Devnet.fetched Devnet.start = (inr Devnet.pepperBytes, Devnet.peppered) /\
  deriveKeylessAccount Devnet.fetched Devnet.start
    = (inr Devnet.accountWithProof,
       snd (getProof (proofArguments Devnet.fetched Devnet.pepperBytes) Devnet.peppered)) /\
  trace (snd (deriveKeylessAccount Devnet.fetched Devnet.start))
    = [Devnet.pepperFetched; Devnet.readConfiguration; Devnet.readVerificationKey;
       Devnet.proofRequested].
Proof.
  assert (Hp : pepperInUse Devnet.fetchedInBackground Devnet.start
               = (inr Devnet.pepperBytes, Devnet.peppered))
    by (vm_compute; reflexivity).
  assert (Hlen : length Devnet.pepperBytes = KeylessAccount_PEPPER_LENGTH)
    by (vm_compute; reflexivity).
  assert (Hp' : pepperInUse Devnet.fetched Devnet.start
                = (inr Devnet.pepperBytes, Devnet.peppered))
    by (vm_compute; reflexivity).
  split; [exact Hp|]. split; [exact Hlen|]. split; [|split; [exact Hp'|]].
  - rewrite (proj1 (proj1 (proof_awaited_only_without_callback
                             Devnet.fetchedInBackground Devnet.start Devnet.peppered
                             Devnet.pepperBytes Hp Hlen) tt eq_refl)).
    vm_compute. reflexivity.
  - rewrite (proj2 (proof_awaited_only_without_callback
                      Devnet.fetched Devnet.start Devnet.peppered
                      Devnet.pepperBytes Hp' Hlen) eq_refl).
    split; vm_compute; reflexivity.
Defined.

(** The signature obtained on the deployment carries the horizon of the
    cached configuration. *)
Lemma getProof_assembles_signature_witness :
  getProof Devnet.proofArgs Devnet.start
    = (inr Devnet.signature, snd (getProof Devnet.proofArgs Devnet.start)) /\
  exists cfg,
    fst (getKeylessConfig (configArgs_of Devnet.proofArgs) Devnet.start) = inr cfg /\
    expHorizonSecs Devnet.signature = maxExpHorizonSecs cfg.
Proof.
  assert (H : getProof Devnet.proofArgs Devnet.start
              = (inr Devnet.signature, snd (getProof Devnet.proofArgs Devnet.start)))
    by (vm_compute; reflexivity).
  split; [exact H|].
  destruct (getProof_assembles_signature Devnet.proofArgs Devnet.start _ Devnet.signature H)
    as (cfg & w1 & json & data & g & tws & Hcfg & _ & _ & _ & _ & Hsig).
  exists cfg. rewrite Hcfg. split; [reflexivity|]. now rewrite Hsig.
Defined.



(** An entry stored in the first second is served to a call in the fourth
    minute and has expired for a call two minutes later, which fetches
    again: two calls within five minutes of each other, two
    configurations. *)
Lemma getKeylessConfig_window_counterexample :
  getKeylessConfig Devnet.configArgs Devnet.start
    = (inr Devnet.configuration, Devnet.configured) /\
  Devnet.fourMinutes = snd (sleep (240000 - 200) Devnet.configured) /\
  getKeylessConfig Devnet.configArgs Devnet.fourMinutes
    = (inr Devnet.configuration, Devnet.fourMinutes) /\
  Devnet.sixMinutes = snd (sleep 120000 Devnet.fourMinutes) /\
  now Devnet.sixMinutes - now Devnet.fourMinutes <= 1000 * 60 * 5 /\
  fst (getKeylessConfig Devnet.configArgs Devnet.sixMinutes) = inr Devnet.laterConfiguration /\
  Devnet.laterConfiguration <> Devnet.configuration /\
  ~ agreeWithinWindow.
Proof.
  split; [vm_compute; reflexivity|].
  split; [reflexivity|].
  split; [vm_compute; reflexivity|].
  split; [reflexivity|].
  split; [vm_compute; discriminate|].
  split; [vm_compute; reflexivity|].
  split; [discriminate|].
  intros Hagree.
  specialize (Hagree Devnet.configArgs Devnet.configArgs Devnet.fourMinutes Devnet.fourMinutes
                Devnet.configuration 120000).
  assert (Hlater : fst (getKeylessConfig Devnet.configArgs (snd (sleep 120000 Devnet.fourMinutes)))
                   = inr Devnet.configuration).
  { apply Hagree; [reflexivity | vm_compute; reflexivity | lia | vm_compute; discriminate]. }
  vm_compute in Hlater. discriminate Hlater.
Qed.

(** ** Runs for the further properties *)

(** A blinder that is no hex string stops [getPepper] at the start. *)
Lemma getPepper_rejects_blinder_witness :
  Hex_fromHexInput (blinder (gp_ephemeralKeyPair Devnet.pepperArgsWithBadBlinder))
    = inl "Hex string is not a sequence of bytes" /\
  getPepper Devnet.pepperArgsWithBadBlinder Devnet.start
    = (inl (CollaboratorError "Hex string is not a sequence of bytes"), Devnet.start).
Proof.
  assert (H : Hex_fromHexInput (blinder (gp_ephemeralKeyPair Devnet.pepperArgsWithBadBlinder))
              = inl "Hex string is not a sequence of bytes") by (vm_compute; reflexivity).
  split; [exact H|].
  exact (getPepper_rejects_blinder Devnet.pepperArgsWithBadBlinder Devnet.start _ H).
Defined.

(** The pepper service answers with 31 bytes, and [getPepper] returns them. *)
Lemma getPepper_decodes_answer_witness :
  Hex_fromHexInput (blinder (gp_ephemeralKeyPair Devnet.pepperArgs)) = inr [x01; x02] /\
  outcome (pepperService (trace Devnet.start) (now Devnet.start)
             (pepperPost (gp_aptosConfig Devnet.pepperArgs)
                (pepperBody Devnet.pepperArgs [x01; x02])))
    = inr {| pepper_of_response := HexBytes Devnet.pepperBytes |} /\
  fst (getPepper Devnet.pepperArgs Devnet.start) = inr Devnet.pepperBytes.
Proof.
  assert (Hbl : Hex_fromHexInput (blinder (gp_ephemeralKeyPair Devnet.pepperArgs))
                = inr [x01; x02]) by (vm_compute; reflexivity).
  assert (Hdata : outcome (pepperService (trace Devnet.start) (now Devnet.start)
                    (pepperPost (gp_aptosConfig Devnet.pepperArgs)
                       (pepperBody Devnet.pepperArgs [x01; x02])))
                  = inr {| pepper_of_response := HexBytes Devnet.pepperBytes |})
    by (vm_compute; reflexivity).
  split; [exact Hbl|]. split; [exact Hdata|].
  exact (proj1 (getPepper_decodes_answer Devnet.pepperArgs Devnet.start _ _ Hbl Hdata)).
Defined.

(** A key pair that expires exactly one horizon from now is accepted. *)
Lemma getProof_rejects_exactly_longer_lifetimes_witness :
  getKeylessConfig (configArgs_of Devnet.proofArgsAtHorizon) Devnet.start
    = (inr Devnet.configuration, Devnet.configured) /\
  maxExpHorizonSecs Devnet.configuration = Num 10000000 /\
  expiryDateSecs (gf_ephemeralKeyPair Devnet.proofArgsAtHorizon) = Num 10000000 /\
  0 <= 10000000 <= 2 ^ 53 /\
  0 <= now Devnet.configured / 1000 <= 2 ^ 53 /\
  getProof Devnet.proofArgsAtHorizon Devnet.start
    = requestProof Devnet.proofArgsAtHorizon (Num 10000000) Devnet.configured.
Proof.
  assert (Hcfg : getKeylessConfig (configArgs_of Devnet.proofArgsAtHorizon) Devnet.start
                 = (inr Devnet.configuration, Devnet.configured))
    by (vm_compute; reflexivity).
  assert (Hh : maxExpHorizonSecs Devnet.configuration = Num 10000000) by reflexivity.
  assert (He : expiryDateSecs (gf_ephemeralKeyPair Devnet.proofArgsAtHorizon) = Num 10000000)
    by reflexivity.
  assert (Hexp : 0 <= 10000000 <= 2 ^ 53) by (split; vm_compute; discriminate).
  assert (Hnow : 0 <= now Devnet.configured / 1000 <= 2 ^ 53)
    by (split; vm_compute; discriminate).
  split; [exact Hcfg|]. split; [exact Hh|]. split; [exact He|].
  split; [exact Hexp|]. split; [exact Hnow|].
  apply (proj2 (getProof_rejects_exactly_longer_lifetimes
                  Devnet.proofArgsAtHorizon Devnet.start Devnet.configured
                  Devnet.configuration 10000000 10000000 Hcfg Hh He Hexp Hexp Hnow)).
  vm_compute. reflexivity.
Defined.

(** A configuration resource without a number: the lifetime is not
    checked. *)
Lemma getProof_accepts_NaN_witness :
  @getKeylessConfig Devnet.types Devnet.garbledServices Devnet.collaborators
    (configArgs_of Devnet.proofArgs) Devnet.start
    = (inr Devnet.garbledConfiguration,
       snd (@getKeylessConfig Devnet.types Devnet.garbledServices Devnet.collaborators
              (configArgs_of Devnet.proofArgs) Devnet.start)) /\
  maxExpHorizonSecs Devnet.garbledConfiguration = NaN /\
  @getProof Devnet.types Devnet.garbledServices Devnet.collaborators
    Devnet.proofArgs Devnet.start
    = @requestProof Devnet.types Devnet.garbledServices Devnet.collaborators
        Devnet.proofArgs NaN
        (snd (@getKeylessConfig Devnet.types Devnet.garbledServices Devnet.collaborators
                (configArgs_of Devnet.proofArgs) Devnet.start)).
Proof.
  assert (Hcfg : @getKeylessConfig Devnet.types Devnet.garbledServices Devnet.collaborators
                   (configArgs_of Devnet.proofArgs) Devnet.start
                 = (inr Devnet.garbledConfiguration,
                    snd (@getKeylessConfig Devnet.types Devnet.garbledServices
                           Devnet.collaborators
                           (configArgs_of Devnet.proofArgs) Devnet.start)))
    by (vm_compute; reflexivity).
  assert (Hnan : maxExpHorizonSecs Devnet.garbledConfiguration = NaN) by reflexivity.
  split; [exact Hcfg|]. split; [exact Hnan|].
  exact (@getProof_accepts_NaN Devnet.types Devnet.garbledServices Devnet.collaborators
           Devnet.proofArgs Devnet.start _ Devnet.garbledConfiguration Hcfg
           (or_introl Hnan)).
Defined.

(** The proof obtained at the start: two reads, then the POST. *)
Lemma getProof_returns_after_posting_witness :
  getProof Devnet.proofArgs Devnet.start = (inr Devnet.signature, Devnet.proved) /\
  exists reads bl pp,
    issuedBetween Devnet.start Devnet.proved
      (reads ++ [{| ev_request :=
                      proverRequest Devnet.proofArgs (expHorizonSecs Devnet.signature) bl pp;
                    ev_failure := None |}]) /\
    Forall (readsLatest (gf_aptosConfig Devnet.proofArgs)) reads /\
    Hex_fromHexInput (blinder (gf_ephemeralKeyPair Devnet.proofArgs)) = inr bl /\
    Hex_fromHexInput (gf_pepper Devnet.proofArgs) = inr pp.
Proof.
  assert (H : getProof Devnet.proofArgs Devnet.start = (inr Devnet.signature, Devnet.proved))
    by (vm_compute; reflexivity).
  split; [exact H|].
  exact (getProof_returns_after_posting Devnet.proofArgs Devnet.start Devnet.proved
           Devnet.signature H).
Defined.

(** A pepper that is no hex string: the configuration is read, the
    lifetime passes, and the call ends with the decoder's error. *)
Lemma getProof_rejects_pepper_witness :
  Hex_fromHexInput (gf_pepper Devnet.proofArgsWithBadPepper)
    = inl "Hex string is not a sequence of bytes" /\
  getProof Devnet.proofArgsWithBadPepper Devnet.start
    = (inl (CollaboratorError "Hex string is not a sequence of bytes"), Devnet.configured).
Proof.
  assert (H : Hex_fromHexInput (gf_pepper Devnet.proofArgsWithBadPepper)
              = inl "Hex string is not a sequence of bytes") by (vm_compute; reflexivity).
  split; [exact H|].
  destruct (getProof_rejects_pepper Devnet.proofArgsWithBadPepper Devnet.start _ H)
    as (_ & _ & _ & Hlate).
  apply (proj2 (Hlate Devnet.configuration Devnet.configured
                  ltac:(vm_compute; reflexivity))
           ltac:(vm_compute; reflexivity) [x01; x02]).
  vm_compute. reflexivity.
Defined.

(** The signature obtained at the start covers the day the key pair lives. *)
Lemma getProof_signature_covers_lifetime_witness :
  getProof Devnet.proofArgs Devnet.start = (inr Devnet.signature, Devnet.proved) /\
  expHorizonSecs Devnet.signature = Num 10000000 /\
  expiryDateSecs (gf_ephemeralKeyPair Devnet.proofArgs) = Num 86400 /\
  0 <= 10000000 <= 2 ^ 53 /\
  0 <= 86400 <= 2 ^ 53 /\
  0 <= now (snd (getKeylessConfig (configArgs_of Devnet.proofArgs) Devnet.start)) / 1000
    <= 2 ^ 53 /\
  86400 - now (snd (getKeylessConfig (configArgs_of Devnet.proofArgs) Devnet.start)) / 1000
    <= 10000000.
Proof.
  assert (H : getProof Devnet.proofArgs Devnet.start = (inr Devnet.signature, Devnet.proved))
    by (vm_compute; reflexivity).
  assert (Hh : expHorizonSecs Devnet.signature = Num 10000000) by reflexivity.
  assert (He : expiryDateSecs (gf_ephemeralKeyPair Devnet.proofArgs) = Num 86400)
    by reflexivity.
  assert (Hhor : 0 <= 10000000 <= 2 ^ 53) by (split; vm_compute; discriminate).
  assert (Hexp : 0 <= 86400 <= 2 ^ 53) by (split; vm_compute; discriminate).
  assert (Hnow : 0 <= now (snd (getKeylessConfig (configArgs_of Devnet.proofArgs)
                                  Devnet.start)) / 1000 <= 2 ^ 53)
    by (split; vm_compute; discriminate).
  split; [exact H|]. split; [exact Hh|]. split; [exact He|].
  split; [exact Hhor|]. split; [exact Hexp|]. split; [exact Hnow|].
  exact (getProof_signature_covers_lifetime Devnet.proofArgs Devnet.start Devnet.proved
           Devnet.signature 10000000 86400 H Hh He Hhor Hexp Hnow).
Defined.

(** A key pair that lives too long, derived with a callback: the
    derivation does not throw the lifetime error. *)
Lemma callback_defers_lifetime_error_witness :
  d_proofFetchCallback Devnet.tooLongLivedInBackground = Some tt /\
  fst (deriveKeylessAccount Devnet.tooLongLivedInBackground Devnet.start)
    <> inl (EphemeralKeyPairTooLongLived (Num 10000000)).
Proof.
  assert (H : d_proofFetchCallback Devnet.tooLongLivedInBackground = Some tt)
    by reflexivity.
  split; [exact H|].
  exact (callback_defers_lifetime_error Devnet.tooLongLivedInBackground Devnet.start tt
           (Num 10000000) H).
Defined.

(** Caching the configuration of devnet leaves the entry of testnet as it
    was. *)
Lemma getKeylessConfig_keeps_other_networks_witness :
  network Devnet.testnet <> network (kc_aptosConfig Devnet.configArgs) /\
  cache (snd (getKeylessConfig Devnet.configArgs Devnet.start))
    !! keylessConfigKey Devnet.testnet
  = cache Devnet.start !! keylessConfigKey Devnet.testnet.
Proof.
  assert (H : network Devnet.testnet <> network (kc_aptosConfig Devnet.configArgs))
    by (vm_compute; discriminate).
  split; [exact H|].
  exact (getKeylessConfig_keeps_other_networks Devnet.configArgs Devnet.testnet
           Devnet.start H).
Defined.

(** A second proof a minute after the first one reads nothing from the
    full node. *)
Lemma getProof_again_reads_nothing_witness :
  getProof Devnet.proofArgs Devnet.start = (inr Devnet.signature, Devnet.proved) /\
  network (gf_aptosConfig Devnet.proofArgs) = network (gf_aptosConfig Devnet.proofArgsAtHorizon) /\
  cache Devnet.provedAMinuteAgo !! keylessConfigKey (gf_aptosConfig Devnet.proofArgs)
    = cache Devnet.proved !! keylessConfigKey (gf_aptosConfig Devnet.proofArgs) /\
  (forall e, cache Devnet.proved !! keylessConfigKey (gf_aptosConfig Devnet.proofArgs) = Some e ->
             now Devnet.provedAMinuteAgo - timestamp e <= 1000 * 60 * 5) /\
  exists proves,
    issuedBetween Devnet.provedAMinuteAgo
      (snd (getProof Devnet.proofArgsAtHorizon Devnet.provedAMinuteAgo)) proves /\
    Forall (fun e => isProvingServiceRequest e = true) proves /\
    (length proves <= 1)%nat.
Proof.
  assert (H : getProof Devnet.proofArgs Devnet.start = (inr Devnet.signature, Devnet.proved))
    by (vm_compute; reflexivity).
  assert (Hnet : network (gf_aptosConfig Devnet.proofArgs)
                 = network (gf_aptosConfig Devnet.proofArgsAtHorizon)) by reflexivity.
  assert (Hsame : cache Devnet.provedAMinuteAgo
                    !! keylessConfigKey (gf_aptosConfig Devnet.proofArgs)
                  = cache Devnet.proved !! keylessConfigKey (gf_aptosConfig Devnet.proofArgs))
    by reflexivity.
  assert (Hyoung : forall e,
            cache Devnet.proved !! keylessConfigKey (gf_aptosConfig Devnet.proofArgs) = Some e ->
            now Devnet.provedAMinuteAgo - timestamp e <= 1000 * 60 * 5).
  { intros e He. vm_compute in He. injection He as <-. vm_compute. discriminate. }
  split; [exact H|]. split; [exact Hnet|]. split; [exact Hsame|]. split; [exact Hyoung|].
  exact (getProof_again_reads_nothing Devnet.proofArgs Devnet.proofArgsAtHorizon
           Devnet.start Devnet.proved Devnet.provedAMinuteAgo Devnet.signature
           H Hnet Hsame Hyoung).
Defined.

(** A derivation with a callback: the call logs the pepper request and the
    read of the configuration; what is left of [getProof], run where the
    call returned, logs the read of the verification key and the POST; the
    four together are within the budget. *)
Lemma deriveKeylessAccount_request_budget_witness :
  derivesOnce [Devnet.pepperFetched; Devnet.readConfiguration] /\
  exists later,
    issuedBetween Devnet.readingConfiguration
      (snd (fst (getProof_started
                   (proofArguments Devnet.fetchedInBackground Devnet.pepperBytes)
                   Devnet.peppered)
              Devnet.readingConfiguration)) later /\
    length later = 2%nat /\
    derivesOnce ([Devnet.pepperFetched; Devnet.readConfiguration] ++ later).
Proof.
  destruct (deriveKeylessAccount_request_budget Devnet.fetchedInBackground Devnet.start)
    as (evs & Hev & Honce & Hlater).
  assert (Hlog : evs = [Devnet.pepperFetched; Devnet.readConfiguration]).
  { unfold issuedBetween in Hev. vm_compute in Hev. symmetry. exact Hev. }
  subst evs. split; [exact Honce|].
  destruct (Hlater Devnet.pepperBytes Devnet.peppered tt Devnet.readingConfiguration)
    as (later & Hl & Hwhole); [vm_compute; reflexivity | reflexivity | reflexivity |].
  exists later. split; [exact Hl|]. split; [|exact Hwhole].
  unfold issuedBetween in Hl. vm_compute in Hl. now injection Hl as <-.
Defined.

(** A [derivationPath] on the argument object reaches the pepper
    service. *)
Lemma deriveKeylessAccount_forwards_derivation_path_witness :
  Forall (forwardedPepperRequest Devnet.fetchedWithPath)
    (trace (snd (deriveKeylessAccount Devnet.fetchedWithPath Devnet.start))) /\
  exists q later,
    trace (snd (deriveKeylessAccount Devnet.fetchedWithPath Devnet.start))
      = {| ev_request := PepperServiceRequest q; ev_failure := None |} :: later /\
    pf_derivation_path (post_body q) = Some Devnet.derivationPath.
Proof.
  split.
  - destruct (deriveKeylessAccount_forwards_derivation_path Devnet.fetchedWithPath
                Devnet.start) as (evs & Hev & Hall).
    rewrite (Hev : trace (snd (deriveKeylessAccount Devnet.fetchedWithPath Devnet.start))
                   = evs).
    exact Hall.
  - eexists. eexists. split; vm_compute; reflexivity.
Defined.

End DevnetRuns.

